(** * Heat Pump Contribution API: a shallow embedding of [app.py]

    The module-level data preparation (lines 48-61 of [app.py]) and the
    request handlers [list_locations], [get_heatpump_share],
    [get_summary_metrics], [get_heatpump_plot] and [download_report] are
    embedded as functions over an explicit data frame (a list of rows),
    followed by the properties of the specification that concern them.

    Modelling conventions.
    - A [DataFrame] is the list of its rows in index order; a boolean mask
      [df[mask]] is [filter].
    - [heatpump_pct] and [total_energy_kWh] are IEEE 754 binary64 numbers
      ([float64]), with the arithmetic of the standard library's
      specification of floating-point numbers: signed zeros, infinities,
      NaN, and every operation rounded to nearest, ties to even.
    - [Series.max], [Series.min], [round] and the arithmetic of the plot
      are fixed by IEEE 754 and are defined here.  The order in which
      [Series.mean] and [SeriesGroupBy.mean] add up a series is decided
      inside pandas and numpy; the two reductions are a parameter
      ([Pandas]) of the handlers, and [reference_pandas] is the instance
      used to evaluate examples.
    - Strings are sequences of 8-bit characters, compared by character
      code.  Whitespace and letter case are classified on ASCII; the
      statements that depend on the classification are made for ASCII
      strings.
    - A town filter is a regular expression for pandas.  [list_locations]
      evaluates the patterns made of ordinary characters and [.], see
      [re_compile]; [Generic.list_locations] takes the regular-expression
      engine as a parameter and covers every filter.
    - JSON, CSV and PNG encoding of the handlers' return values belongs to
      FastAPI and pandas and is not modelled. *)

From Stdlib Require Import ZArith QArith Qabs List Bool Lia.
From Stdlib Require Import Floats.SpecFloat.
From Stdlib Require Import Ascii String Sorted Permutation.
Import ListNotations.

Set Implicit Arguments.

Local Open Scope Z_scope.

(** ** Ordering protocol of grouping and sorting keys

    Python compares [int], [str], tuples, [datetime.date] and
    [pandas.Period] through rich comparisons that form a strict total
    order; [Ord] packages the three-way comparison with its laws. *)

Class Ord (K : Type) := {
  cmp : K -> K -> comparison;
  cmp_eq_iff : forall a b, cmp a b = Eq <-> a = b;
  cmp_antisym : forall a b, cmp b a = CompOpp (cmp a b);
  cmp_lt_trans : forall a b c, cmp a b = Lt -> cmp b c = Lt -> cmp a c = Lt
}.

Definition lt_key {K} `{Ord K} (a b : K) : Prop := cmp a b = Lt.
Definition le_key {K} `{Ord K} (a b : K) : Prop := cmp a b <> Gt.
Definition eqb_key {K} `{Ord K} (a b : K) : bool :=
  match cmp a b with Eq => true | _ => false end.
Definition leb_key {K} `{Ord K} (a b : K) : bool :=
  match cmp a b with Gt => false | _ => true end.

Lemma Z_cmp_lt_trans (a b c : Z) :
  (a ?= b) = Lt -> (b ?= c) = Lt -> (a ?= c) = Lt.
Proof. rewrite !Z.compare_lt_iff. lia. Qed.

#[export] Instance Ord_Z : Ord Z :=
  {| cmp := Z.compare;
     cmp_eq_iff := Z.compare_eq_iff;
     cmp_antisym := Z.compare_antisym;
     cmp_lt_trans := Z_cmp_lt_trans |}.

(** Tuples compare lexicographically. *)
Section OrdPair.
Context {A B : Type} `{Ord A} `{Ord B}.

Definition cmp_pair (x y : A * B) : comparison :=
  match cmp (fst x) (fst y) with
  | Eq => cmp (snd x) (snd y)
  | c => c
  end.

Lemma cmp_pair_eq_iff x y : cmp_pair x y = Eq <-> x = y.
Proof.
  destruct x as [a b], y as [a' b']. unfold cmp_pair; simpl. split.
  - destruct (cmp a a') eqn:E; try discriminate.
    intros E'. apply cmp_eq_iff in E, E'. congruence.
  - intros [= -> ->].
    assert (E : cmp a' a' = Eq) by now apply cmp_eq_iff.
    rewrite E. now apply cmp_eq_iff.
Qed.

Lemma cmp_pair_antisym x y : cmp_pair y x = CompOpp (cmp_pair x y).
Proof.
  destruct x as [a b], y as [a' b']. unfold cmp_pair; simpl.
  rewrite (cmp_antisym a a'), (cmp_antisym b b').
  destruct (cmp a a'); reflexivity.
Qed.

Lemma cmp_pair_lt_trans x y z :
  cmp_pair x y = Lt -> cmp_pair y z = Lt -> cmp_pair x z = Lt.
Proof.
  destruct x as [a1 b1], y as [a2 b2], z as [a3 b3].
  unfold cmp_pair; simpl.
  destruct (cmp a1 a2) eqn:E1; try discriminate;
    destruct (cmp a2 a3) eqn:E2; try discriminate.
  - apply cmp_eq_iff in E1, E2; subst.
    assert (E : cmp a3 a3 = Eq) by now apply cmp_eq_iff.
    rewrite E. apply cmp_lt_trans.
  - apply cmp_eq_iff in E1; subst. now rewrite E2.
  - apply cmp_eq_iff in E2; subst. now rewrite E1.
  - now rewrite (cmp_lt_trans _ _ _ E1 E2).
Qed.

#[export] Instance Ord_pair : Ord (A * B) :=
  {| cmp := cmp_pair;
     cmp_eq_iff := cmp_pair_eq_iff;
     cmp_antisym := cmp_pair_antisym;
     cmp_lt_trans := cmp_pair_lt_trans |}.
End OrdPair.

(** An order is carried back along an injective projection (used for the
    record types below, which compare like the tuple of their fields). *)
Section OrdVia.
Context {A B : Type} `{Ord B} (f : A -> B).
Hypothesis f_inj : forall x y, f x = f y -> x = y.

Definition cmp_via (x y : A) : comparison := cmp (f x) (f y).

Lemma cmp_via_eq_iff x y : cmp_via x y = Eq <-> x = y.
Proof.
  unfold cmp_via. rewrite cmp_eq_iff. split; [apply f_inj | congruence].
Qed.

Lemma cmp_via_antisym x y : cmp_via y x = CompOpp (cmp_via x y).
Proof. apply cmp_antisym. Qed.

Lemma cmp_via_lt_trans x y z :
  cmp_via x y = Lt -> cmp_via y z = Lt -> cmp_via x z = Lt.
Proof. apply cmp_lt_trans. Qed.

Definition Ord_via : Ord A :=
  {| cmp := cmp_via;
     cmp_eq_iff := cmp_via_eq_iff;
     cmp_antisym := cmp_via_antisym;
     cmp_lt_trans := cmp_via_lt_trans |}.
End OrdVia.

(** [str] compares by code point, character by character. *)
Lemma ascii_compare_lt_trans a b c :
  Ascii.compare a b = Lt -> Ascii.compare b c = Lt -> Ascii.compare a c = Lt.
Proof.
  unfold Ascii.compare. rewrite !N.compare_lt_iff. apply N.lt_trans.
Qed.

Lemma ascii_compare_refl a : Ascii.compare a a = Eq.
Proof. unfold Ascii.compare. apply N.compare_refl. Qed.

Lemma string_compare_refl s : String.compare s s = Eq.
Proof.
  induction s as [|a s IH]; simpl; [reflexivity|].
  now rewrite ascii_compare_refl.
Qed.

Lemma string_compare_lt_trans s1 s2 s3 :
  String.compare s1 s2 = Lt -> String.compare s2 s3 = Lt ->
  String.compare s1 s3 = Lt.
Proof.
  revert s2 s3.
  induction s1 as [|a1 s1 IH]; intros [|a2 s2] [|a3 s3]; simpl;
    try discriminate; try reflexivity.
  destruct (Ascii.compare a1 a2) eqn:E12; try discriminate;
    destruct (Ascii.compare a2 a3) eqn:E23; try discriminate.
  - apply Ascii.compare_eq_iff in E12, E23; subst.
    rewrite ascii_compare_refl. apply IH.
  - apply Ascii.compare_eq_iff in E12; subst. now rewrite E23.
  - apply Ascii.compare_eq_iff in E23; subst. now rewrite E12.
  - now rewrite (ascii_compare_lt_trans _ _ _ E12 E23).
Qed.

Lemma string_compare_eq_iff s1 s2 : String.compare s1 s2 = Eq <-> s1 = s2.
Proof.
  split; [apply String.compare_eq_iff | intros ->; apply string_compare_refl].
Qed.

#[export] Instance Ord_string : Ord string :=
  {| cmp := String.compare;
     cmp_eq_iff := string_compare_eq_iff;
     cmp_antisym := fun a b => String.compare_antisym b a;
     cmp_lt_trans := string_compare_lt_trans |}.

(** Consequences of the laws. *)
Section OrdFacts.
Context {K : Type} `{Ord K}.

Lemma cmp_refl (a : K) : cmp a a = Eq.
Proof. now apply cmp_eq_iff. Qed.

Lemma cmp_gt_lt (a b : K) : cmp a b = Gt <-> cmp b a = Lt.
Proof.
  rewrite (cmp_antisym a b). destruct (cmp a b); simpl; split; congruence.
Qed.

Lemma lt_key_irrefl (a : K) : ~ lt_key a a.
Proof. unfold lt_key. rewrite cmp_refl. discriminate. Qed.

Lemma lt_key_trans (a b c : K) : lt_key a b -> lt_key b c -> lt_key a c.
Proof. apply cmp_lt_trans. Qed.

Lemma lt_key_neq (a b : K) : lt_key a b -> a <> b.
Proof. intros Hlt ->. exact (lt_key_irrefl Hlt). Qed.

Lemma eqb_key_true (a b : K) : eqb_key a b = true <-> a = b.
Proof.
  unfold eqb_key. rewrite <- cmp_eq_iff.
  destruct (cmp a b); split; congruence.
Qed.

Lemma eqb_key_refl (a : K) : eqb_key a a = true.
Proof. now apply eqb_key_true. Qed.

Lemma eqb_key_false (a b : K) : eqb_key a b = false <-> a <> b.
Proof.
  rewrite <- eqb_key_true. destruct (eqb_key a b); split; congruence.
Qed.

Lemma le_key_trans (a b c : K) : le_key a b -> le_key b c -> le_key a c.
Proof.
  unfold le_key. intros Hab Hbc.
  destruct (cmp a b) eqn:E1; try congruence;
    destruct (cmp b c) eqn:E2; try congruence.
  - apply cmp_eq_iff in E1; subst. now rewrite E2.
  - apply cmp_eq_iff in E1; subst. now rewrite E2.
  - apply cmp_eq_iff in E2; subst. now rewrite E1.
  - now rewrite (cmp_lt_trans _ _ _ E1 E2).
Qed.

Lemma leb_key_le (a b : K) : leb_key a b = true <-> le_key a b.
Proof.
  unfold leb_key, le_key. destruct (cmp a b); split; congruence.
Qed.

Lemma leb_key_false_le (a b : K) : leb_key a b = false -> le_key b a.
Proof.
  unfold leb_key, le_key. intros Hf.
  destruct (cmp a b) eqn:E; try discriminate.
  apply cmp_gt_lt in E. rewrite E. discriminate.
Qed.
End OrdFacts.

(** ** Timestamps and derived time columns (app.py, lines 48-55) *)

(** [datetime.date], [datetime.time] and the monthly [pandas.Period]. *)
Record PyDate := mkDate { d_year : Z; d_month : Z; d_day : Z }.
Record PyTime := mkTime
  { t_hour : Z; t_minute : Z; t_second : Z; t_microsecond : Z }.
Record Period := mkPeriod { p_year : Z; p_month : Z }.

(** A timestamp as stored in the dataset: civil fields together with the
    offset from UTC in minutes (0 for a naive value and for a [Z] suffix,
    60 for [+01:00]). *)
Record RawTimestamp := mkRaw {
  raw_year : Z; raw_month : Z; raw_day : Z;
  raw_hour : Z; raw_minute : Z; raw_second : Z; raw_nanosecond : Z;
  raw_utcoffset : Z
}.

(** A UTC-aware [pandas.Timestamp]: nanoseconds since 1970-01-01T00:00Z. *)
Definition Timestamp := Z.

(** A naive timestamp, as produced by [tz_localize(None)]: nanoseconds of
    wall-clock time since 1970-01-01T00:00, without a zone. *)
Record NaiveTimestamp := mkNaive { wall_ns : Z }.

Definition NS_PER_SECOND : Z := 1000000000.
Definition NS_PER_MINUTE : Z := 60 * NS_PER_SECOND.
Definition NS_PER_HOUR : Z := 3600 * NS_PER_SECOND.
Definition NS_PER_DAY : Z := 86400 * NS_PER_SECOND.

(** Proleptic Gregorian calendar: day number (days since 1970-01-01) of a
    civil date and back, over eras of 400 years starting on 1 March. *)
Definition days_from_civil (y m d : Z) : Z :=
  let y' := if m <=? 2 then y - 1 else y in
  let era := y' / 400 in
  let yoe := y' - era * 400 in
  let mp := if m <=? 2 then m + 9 else m - 3 in
  let doy := (153 * mp + 2) / 5 + d - 1 in
  let doe := yoe * 365 + yoe / 4 - yoe / 100 + doy in
  era * 146097 + doe - 719468.

Definition civil_from_days (z : Z) : PyDate :=
  let z' := z + 719468 in
  let era := z' / 146097 in
  let doe := z' - era * 146097 in
  let yoe := (doe - doe / 1460 + doe / 36524 - doe / 146096) / 365 in
  let doy := doe - (365 * yoe + yoe / 4 - yoe / 100) in
  let mp := (5 * doy + 2) / 153 in
  let d := doy - (153 * mp + 2) / 5 + 1 in
  let m := if mp <? 10 then mp + 3 else mp - 9 in
  let y := yoe + era * 400 in
  mkDate (if m <=? 2 then y + 1 else y) m d.

(** [pd.to_datetime(..., utc=True)]: the instant denoted by the civil
    fields at their offset, expressed in UTC. *)
Definition to_datetime_utc (t : RawTimestamp) : Timestamp :=
  days_from_civil (raw_year t) (raw_month t) (raw_day t) * NS_PER_DAY
  + raw_hour t * NS_PER_HOUR
  + raw_minute t * NS_PER_MINUTE
  + raw_second t * NS_PER_SECOND
  + raw_nanosecond t
  - raw_utcoffset t * NS_PER_MINUTE.

(** The [.dt] accessors of a UTC-aware column read the UTC wall clock. *)
Definition dt_hour (ts : Timestamp) : Z := (ts / NS_PER_HOUR) mod 24.
Definition dt_date (ts : Timestamp) : PyDate :=
  civil_from_days (ts / NS_PER_DAY).
Definition dt_time (ts : Timestamp) : PyTime :=
  mkTime ((ts / NS_PER_HOUR) mod 24)
         ((ts / NS_PER_MINUTE) mod 60)
         ((ts / NS_PER_SECOND) mod 60)
         ((ts / 1000) mod 1000000).

(** [.dt.tz_localize(None)] drops the zone of a UTC-aware timestamp and
    keeps its UTC wall clock. *)
Definition tz_localize_None (ts : Timestamp) : NaiveTimestamp :=
  mkNaive ts.

(** [.dt.to_period("M")] truncates a naive timestamp to its month. *)
Definition to_period_M (n : NaiveTimestamp) : Period :=
  let d := civil_from_days (wall_ns n / NS_PER_DAY) in
  mkPeriod (d_year d) (d_month d).

(** Keys compare as the tuples of their fields. *)
Definition date_tuple (d : PyDate) : Z * (Z * Z) :=
  (d_year d, (d_month d, d_day d)).
Definition period_tuple (p : Period) : Z * Z := (p_year p, p_month p).

Lemma date_tuple_inj x y : date_tuple x = date_tuple y -> x = y.
Proof. destruct x, y; unfold date_tuple; simpl. congruence. Qed.

Lemma period_tuple_inj x y : period_tuple x = period_tuple y -> x = y.
Proof. destruct x, y; unfold period_tuple; simpl. congruence. Qed.

#[export] Instance Ord_PyDate : Ord PyDate := Ord_via date_tuple date_tuple_inj.
#[export] Instance Ord_Period : Ord Period :=
  Ord_via period_tuple period_tuple_inj.

(** Dates in calendar order. *)
Definition date_le (c1 c2 : PyDate) : Prop :=
  d_year c1 < d_year c2 \/
  (d_year c1 = d_year c2 /\
   (d_month c1 < d_month c2 \/
    (d_month c1 = d_month c2 /\ d_day c1 <= d_day c2))).

(** Calendar validity of the civil fields of a raw timestamp. *)
Definition is_leap (y : Z) : bool :=
  (y mod 4 =? 0) && negb (y mod 100 =? 0) || (y mod 400 =? 0).

Definition days_in_month (y m : Z) : Z :=
  if m =? 2 then (if is_leap y then 29 else 28)
  else if (m =? 4) || (m =? 6) || (m =? 9) || (m =? 11) then 30
  else 31.

Definition valid_raw (t : RawTimestamp) : Prop :=
  1 <= raw_month t <= 12 /\
  1 <= raw_day t <= days_in_month (raw_year t) (raw_month t) /\
  0 <= raw_hour t < 24 /\
  0 <= raw_minute t < 60 /\
  0 <= raw_second t < 60 /\
  0 <= raw_nanosecond t < NS_PER_SECOND.

(** ** String normalisation (app.py, lines 57-61) *)

(** The ASCII characters for which [str.isspace] holds. *)
Definition is_space (c : ascii) : bool :=
  let n := N_of_ascii c in
  ((9 <=? n) && (n <=? 13) || (28 <=? n) && (n <=? 32))%N.

Fixpoint lstrip (s : string) : string :=
  match s with
  | EmptyString => EmptyString
  | String c s' => if is_space c then lstrip s' else s
  end.

Fixpoint rstrip (s : string) : string :=
  match s with
  | EmptyString => EmptyString
  | String c s' =>
      match rstrip s' with
      | EmptyString => if is_space c then EmptyString else String c EmptyString
      | t => String c t
      end
  end.

Definition strip (s : string) : string := rstrip (lstrip s).

(** ** Floating-point numbers (numpy's [float64])

    A [float64] is a signed zero, a signed infinity, NaN, or
    [(-1)^s * m * 2^e]; the operations round the exact result to the
    nearest binary64 number, ties to even (precision 53, largest exponent
    1024). *)

Definition float64 : Type := spec_float.

Definition fadd : float64 -> float64 -> float64 := SFadd 53 1024.
Definition fsub : float64 -> float64 -> float64 := SFsub 53 1024.
Definition fmul : float64 -> float64 -> float64 := SFmul 53 1024.
Definition fdiv : float64 -> float64 -> float64 := SFdiv 53 1024.

(** [x < y], [x <= y] and [x == y]; all three are false on NaN. *)
Definition flt : float64 -> float64 -> bool := SFltb.
Definition fle : float64 -> float64 -> bool := SFleb.
Definition feq : float64 -> float64 -> bool := SFeqb.

Definition nan : float64 := S754_nan.

Definition isnan (x : float64) : bool :=
  match x with
  | S754_nan => true
  | _ => false
  end.

(** [float(n)] *)
Definition of_Z (n : Z) : float64 := binary_normalize 53 1024 n 0 false.

(** The number that the decimal literal [n * 10^-k] denotes: the binary64
    number nearest to it (for [n] below [2^53] and [k] up to 22, where [n]
    and [10^k] are binary64 numbers themselves). *)
Definition decimal (n : Z) (k : Z) : float64 := fdiv (of_Z n) (of_Z (10 ^ k)).

(** Two results that are the same number: identical, or equal under [==]
    (which holds of zeros of either sign). *)
Definition same_number (x y : float64) : Prop := x = y \/ feq x y = true.

(** The place of a number in the order of the comparisons: sign class,
    then exponent, then mantissa. *)
Definition rank (x : float64) : Z * (Z * Z) :=
  match x with
  | S754_infinity true => (-2, (0, 0))
  | S754_finite true m e => (-1, (- e, - Zpos m))
  | S754_zero _ => (0, (0, 0))
  | S754_nan => (0, (0, 0))
  | S754_finite false m e => (1, (e, Zpos m))
  | S754_infinity false => (2, (0, 0))
  end.

Definition rank_lt (a b : Z * (Z * Z)) : Prop :=
  fst a < fst b \/
  (fst a = fst b /\
   (fst (snd a) < fst (snd b) \/
    (fst (snd a) = fst (snd b) /\ snd (snd a) < snd (snd b)))).

(** ** The data frame *)

(** A row of the dataset file, restricted to the columns the handlers use. *)
Record RawRow := mkRawRow {
  raw_timestamp : RawTimestamp;
  raw_Location : string;
  raw_Town : string;
  raw_total_energy_kWh : float64;
  raw_heatpump_pct : float64
}.

(** A row of the global [df] once lines 48-61 have run. *)
Record Row := mkRow {
  timestamp : Timestamp;
  Location : string;
  Town : string;
  total_energy_kWh : float64;
  heatpump_pct : float64;
  hour : Z;
  date : PyDate;
  month : Period;
  time : PyTime
}.

Definition DataFrame := list Row.

Definition prepare_row (r : RawRow) : Row :=
  let ts := to_datetime_utc (raw_timestamp r) in
  {| timestamp := ts;
     hour := dt_hour ts;
     date := dt_date ts;
     month := to_period_M (tz_localize_None ts);
     time := dt_time ts;
     Location := strip (raw_Location r);
     Town := strip (raw_Town r);
     total_energy_kWh := raw_total_energy_kWh r;
     heatpump_pct := raw_heatpump_pct r |}.

Definition load (rows : list RawRow) : DataFrame := map prepare_row rows.

(** ** Series reductions *)

(** The reductions of pandas skip missing values ([skipna=True]). *)
Definition dropna (l : list float64) : list float64 :=
  filter (fun x => negb (isnan x)) l.

(** The larger and the smaller of two numbers; the first one is kept when
    they compare equal (a zero of either sign). *)
Definition fmax (a b : float64) : float64 := if flt a b then b else a.
Definition fmin (a b : float64) : float64 := if flt b a then b else a.

(** [Series.max] and [Series.min]: the greatest and the least of the values
    that are not NaN, and NaN when there is none. *)
Definition series_max (l : list float64) : float64 :=
  match dropna l with
  | [] => nan
  | x :: xs => fold_left fmax xs x
  end.

Definition series_min (l : list float64) : float64 :=
  match dropna l with
  | [] => nan
  | x :: xs => fold_left fmin xs x
  end.

(** [numpy.rint]: the nearest integer, ties to even, as a [float64] that
    keeps the sign of [x] (so [-0.4] gives [-0.0]). *)
Definition rint (x : float64) : float64 :=
  match x with
  | S754_finite s m e =>
      if 0 <=? e then x
      else
        let d := 2 ^ (- e) in
        let q := Zpos m / d in
        let r := Zpos m mod d in
        let n := match 2 * r ?= d with
                 | Lt => q
                 | Gt => q + 1
                 | Eq => if Z.even q then q else q + 1
                 end in
        binary_normalize 53 1024 (cond_Zopp s n) 0 s
  | _ => x
  end.

(** [round(x, 2)] on a [numpy.float64]: numpy scales by [10**2], rounds to
    the nearest integer and scales back, each step in binary64. *)
Definition round2 (x : float64) : float64 :=
  fdiv (rint (fmul x (of_Z 100))) (of_Z 100).

(** The mean reductions of pandas.  Both divide a floating-point sum of the
    values that are not NaN by their number; in which order the sum is
    accumulated (pairwise in blocks, with a running compensation) is the
    library's choice, so the two reductions are taken as they come:
    [Series_mean] for [Series.mean()] and [SeriesGroupBy_mean] for the mean
    of one group of [SeriesGroupBy.mean()], each a function of the values
    in the order of the frame. *)
Record Pandas := mkPandas {
  Series_mean : list float64 -> float64;
  SeriesGroupBy_mean : list float64 -> float64
}.

(** The reference instance.  [nanmean] adds the values from left to right,
    as numpy's summation does on a short series; [group_mean] is the
    compensated (Kahan) summation of pandas' group-by kernel. *)
Definition nanmean (l : list float64) : float64 :=
  match dropna l with
  | [] => nan
  | values =>
      fdiv (fold_left fadd values (S754_zero false))
           (of_Z (Z.of_nat (List.length values)))
  end.

Definition kahan_add (acc : float64 * float64) (val : float64)
  : float64 * float64 :=
  let (sumx, compensation) := acc in
  let y := fsub val compensation in
  let t := fadd sumx y in
  let c := fsub (fsub t sumx) y in
  (t, if isnan c then S754_zero false else c).

Definition group_mean (l : list float64) : float64 :=
  match dropna l with
  | [] => nan
  | values =>
      fdiv (fst (fold_left kahan_add values
                           (S754_zero false, S754_zero false)))
           (of_Z (Z.of_nat (List.length values)))
  end.

Definition reference_pandas : Pandas := mkPandas nanmean group_mean.

(** ** Grouping ([DataFrame.groupby(keys)[col].mean().reset_index()])

    [groupby] sorts the groups by key; within a group the rows keep the
    order of the frame. *)
Section GroupBy.
Context {K : Type} `{Ord K} {A : Type}.

Fixpoint add_to_group (k : K) (a : A) (gs : list (K * list A))
  : list (K * list A) :=
  match gs with
  | [] => [(k, [a])]
  | (k', g) :: rest =>
      match cmp k k' with
      | Lt => (k, [a]) :: gs
      | Eq => (k', g ++ [a]) :: rest
      | Gt => (k', g) :: add_to_group k a rest
      end
  end.

Definition groupby (key : A -> K) (l : list A) : list (K * list A) :=
  fold_left (fun gs a => add_to_group (key a) a gs) l [].
End GroupBy.

(** Views of the groups used to state their properties. *)
Section GroupViews.
Context {K : Type} `{Ord K} {A : Type}.

Definition group_keys (gs : list (K * list A)) : list K := map fst gs.

(** The rows filed under key [k] (none when [k] is not a group). *)
Fixpoint find_group (k : K) (gs : list (K * list A)) : list A :=
  match gs with
  | [] => []
  | (k', g) :: rest => if eqb_key k k' then g else find_group k rest
  end.

(** The number of rows held by all groups together. *)
Definition total_count (gs : list (K * list A)) : nat :=
  fold_right (fun kg n => (List.length (snd kg) + n)%nat) 0%nat gs.

Definition keys_sorted (gs : list (K * list A)) : Prop :=
  StronglySorted lt_key (group_keys gs).
End GroupViews.

Definition groupby_mean (pd : Pandas) {K : Type} `{Ord K} (key : Row -> K)
    (df : DataFrame) : list (K * float64) :=
  map (fun kg => (fst kg, SeriesGroupBy_mean pd (map heatpump_pct (snd kg))))
      (groupby key df).

(** ** Request handlers *)

Inductive HTTPException := mkHTTPException (status_code : Z) (detail : string).

Inductive Response (A : Type) :=
| Return (a : A)
| Raise (e : HTTPException).
Arguments Return {A} a.
Arguments Raise {A} e.

(** The "not found" condition of the specification. *)
Definition LocationNotFound : HTTPException :=
  mkHTTPException 404 "Location not found".

(** [df[df['Location'] == location]] *)
Definition filter_location (df : DataFrame) (location : string) : DataFrame :=
  filter (fun r => (Location r =? location)%string) df.

(** [DataFrame.empty] *)
Definition empty (df : DataFrame) : bool :=
  match df with [] => true | _ :: _ => false end.

Inductive Resolution := hourly | daily | monthly.

(** The type of a bucket key at each resolution. *)
Definition key_type (resolution : Resolution) : Type :=
  match resolution with
  | hourly => (PyDate * Z)%type
  | daily => PyDate
  | monthly => Period
  end.

(** GET /heatpump/share (app.py, lines 169-189) *)
Definition get_heatpump_share (pd : Pandas) (df : DataFrame)
    (location : string) (resolution : Resolution)
  : Response (list (key_type resolution * float64)) :=
  let location_df := filter_location df location in
  if empty location_df then Raise (mkHTTPException 404 "Location not found")
  else
    match resolution as r return Response (list (key_type r * float64)) with
    | hourly =>
        Return (groupby_mean pd (fun r => (date r, hour r)) location_df)
    | daily =>
        Return (groupby_mean pd (fun r => date r) location_df)
    | monthly =>
        Return (groupby_mean pd (fun r => month r) location_df)
    end.

(** GET /heatpump/summary (app.py, lines 191-209) *)
Record Summary := mkSummary {
  location_ : string;
  average_heatpump_pct : float64;
  max_heatpump_pct : float64;
  min_heatpump_pct : float64;
  data_points : nat
}.

Definition get_summary_metrics (pd : Pandas) (df : DataFrame)
    (location : string) : Response Summary :=
  let location_df := filter_location df location in
  if empty location_df then Raise (mkHTTPException 404 "Location not found")
  else
    let avg_pct := Series_mean pd (map heatpump_pct location_df) in
    let max_pct := series_max (map heatpump_pct location_df) in
    let min_pct := series_min (map heatpump_pct location_df) in
    Return {| location_ := location;
              average_heatpump_pct := round2 avg_pct;
              max_heatpump_pct := round2 max_pct;
              min_heatpump_pct := round2 min_pct;
              data_points := List.length location_df |}.

(** GET /heatpump/report (app.py, lines 222-233); the handler returns the
    rows that [to_csv] then serialises. *)
Definition download_report (df : DataFrame) (location : string)
  : Response DataFrame :=
  let location_df := filter_location df location in
  if empty location_df then Raise (mkHTTPException 404 "Location not found")
  else Return location_df.

(** ** The town filter ([Series.str.contains(Town, case=False, na=False)])

    [str.contains] takes its argument as a regular expression ([regex=True]
    is the default) and searches it in each value with [re.IGNORECASE].
    The fragment of the pattern language evaluated here is: a character
    that is not special stands for itself, and [.] stands for any character
    but a newline.  [re_compile] answers [None] on a pattern that uses any
    other special character: such a pattern is outside the fragment (Python
    may answer it by rules that are not evaluated here, or raise
    [re.error]), and nothing is stated about it through [re_compile]; the
    statements about every filter are made on [Generic.list_locations]
    below. *)

Inductive atom :=
| Lit (c : ascii)
| AnyChar.

(** The special characters of Python's [re] syntax. *)
Definition special_chars : list ascii :=
  list_ascii_of_string ".^$*+?{}[]\|()".

Definition is_special (c : ascii) : bool :=
  existsb (Ascii.eqb c) special_chars.

Definition is_dot (c : ascii) : bool := Ascii.eqb c ".".

Fixpoint re_compile (pat : string) : option (list atom) :=
  match pat with
  | EmptyString => Some []
  | String c rest =>
      match re_compile rest with
      | None => None
      | Some atoms =>
          if is_dot c then Some (AnyChar :: atoms)
          else if is_special c then None
          else Some (Lit c :: atoms)
      end
  end.

(** ASCII case folding. *)
Definition lower (c : ascii) : ascii :=
  let n := N_of_ascii c in
  if ((65 <=? n) && (n <=? 90))%N then ascii_of_N (n + 32) else c.

Definition newline : ascii := ascii_of_N 10.

Definition atom_matches (a : atom) (c : ascii) : bool :=
  match a with
  | Lit p => Ascii.eqb (lower p) (lower c)
  | AnyChar => negb (Ascii.eqb c newline)
  end.

(** The pattern matches a prefix of [s]. *)
Fixpoint match_here (atoms : list atom) (s : string) : bool :=
  match atoms, s with
  | [], _ => true
  | _ :: _, EmptyString => false
  | a :: atoms', String c s' => atom_matches a c && match_here atoms' s'
  end.

(** [re.search]: the pattern matches at some position of [s]. *)
Fixpoint re_search (atoms : list atom) (s : string) : bool :=
  match_here atoms s
  || match s with
     | EmptyString => false
     | String _ s' => re_search atoms s'
     end.

Definition str_contains (pat : string) (s : string) : option bool :=
  option_map (fun atoms => re_search atoms s) (re_compile pat).

(** ** The location catalogue (GET /locations, app.py, lines 158-167) *)

(** [DataFrame.drop_duplicates]: the first occurrence of each row stays. *)
Fixpoint drop_duplicates {K : Type} `{Ord K} (l : list K) : list K :=
  match l with
  | [] => []
  | x :: xs => x :: filter (fun y => negb (eqb_key x y)) (drop_duplicates xs)
  end.

(** [DataFrame.sort_values('Location')]: ascending on the first column.
    Rows with equal locations are kept in their incoming order here;
    pandas' default sort does not promise an order among them, and no
    statement below depends on it. *)
Fixpoint insert_by_Location (p : string * string) (l : list (string * string))
  : list (string * string) :=
  match l with
  | [] => [p]
  | q :: l' =>
      if leb_key (fst p) (fst q) then p :: l
      else q :: insert_by_Location p l'
  end.

Definition sort_values_Location (l : list (string * string))
  : list (string * string) :=
  fold_right insert_by_Location [] l.

(** [df[['Location', 'Town']]] *)
Definition pairs_of (df : DataFrame) : list (string * string) :=
  map (fun r => (Location r, Town r)) df.

(** [bool(Town)]: an absent or empty query parameter is falsy. *)
Definition truthy (Town_ : option string) : option string :=
  match Town_ with
  | Some EmptyString => None
  | t => t
  end.

(** [None] is returned where the town filter is a pattern outside the
    modelled fragment. *)
Definition list_locations (df : DataFrame) (Town_ : option string)
  : option (list (string * string)) :=
  let filtered_df :=
    match truthy Town_ with
    | Some pat =>
        match re_compile pat with
        | Some atoms => Some (filter (fun r => re_search atoms (Town r)) df)
        | None => None
        end
    | None => Some df
    end in
  match filtered_df with
  | Some fdf =>
      let locs :=
        sort_values_Location
          (drop_duplicates (map (fun r => (Location r, Town r)) fdf)) in
      Some locs
  | None => None
  end.

(** ** The location catalogue under any regular-expression engine

    [str.contains] compiles the filter once and searches it in every town.
    The engine (Python's [re] module for object columns) is not part of
    the repository; [Regex] is what the handler uses of it: [compile pat]
    is the pattern compiled with the flag that ignores case, or [None]
    where compiling raises [re.error], and [search p s] tells whether [p]
    matches somewhere in [s].  The handler does not catch the error, so the
    request then fails without an answer. *)
Record Regex := mkRegex {
  Pattern : Type;
  compile : string -> option Pattern;
  search : Pattern -> string -> bool
}.

Inductive Outcome (A : Type) :=
| Answer (a : A)
| re_error.
Arguments Answer {A} a.
Arguments re_error {A}.

Module Generic.

Definition list_locations (py : Regex) (df : DataFrame)
    (Town_ : option string) : Outcome (list (string * string)) :=
  let filtered_df :=
    match truthy Town_ with
    | Some pat =>
        match compile py pat with
        | Some p => Some (filter (fun r => search py p (Town r)) df)
        | None => None
        end
    | None => Some df
    end in
  match filtered_df with
  | Some fdf =>
      let locs :=
        sort_values_Location
          (drop_duplicates (map (fun r => (Location r, Town r)) fdf)) in
      Answer locs
  | None => re_error
  end.

End Generic.

(** The engine that knows the fragment of [re_compile] and rejects every
    other pattern. *)
Definition fragment_regex : Regex := mkRegex re_compile re_search.

(** An engine that treats the patterns of the fragment as [re_compile] and
    [re_search] do. *)
Definition knows_fragment (py : Regex) : Prop :=
  forall pat atoms,
    re_compile pat = Some atoms ->
    exists p, compile py pat = Some p /\
              forall s, search py p s = re_search atoms s.

(** The rows that the handler keeps under a town filter. *)
Definition town_kept (py : Regex) (Town_ : option string) (r : Row) : Prop :=
  match truthy Town_ with
  | Some pat =>
      exists p, compile py pat = Some p /\ search py p (Town r) = true
  | None => True
  end.

(** The three grouping keys of [get_heatpump_share] as one selector. *)
Definition bucket_key (resolution : Resolution) : Row -> key_type resolution :=
  match resolution with
  | hourly => fun r => (date r, hour r)
  | daily => fun r => date r
  | monthly => fun r => month r
  end.

#[export] Instance Ord_key (resolution : Resolution)
  : Ord (key_type resolution) :=
  match resolution with
  | hourly => Ord_pair
  | daily => Ord_PyDate
  | monthly => Ord_Period
  end.

(** ** The comparison plot (app.py, lines 69-86 and 211-220)

    A figure is described by what is drawn on it; [plt.savefig] turns it
    into the PNG bytes that the handler streams, which is not modelled. *)
Record Line := mkLine {
  line_x : list Timestamp;
  line_y : list float64;
  line_label : string;
  line_color : string;
  line_alpha : float64
}.

Record Figure := mkFigure {
  fig_size : Z * Z;
  fig_lines : list Line;
  fig_title : string;
  fig_xlabel : string;
  fig_ylabel : string;
  fig_legend : bool;
  fig_grid : bool
}.

Definition generate_comparison_plot (data : DataFrame) (location : string)
  : Figure :=
  {| fig_size := (10, 6);
     fig_lines :=
       [ mkLine (map timestamp data)
                (map total_energy_kWh data)
                "Total Consumption (kWh)" "blue" (decimal 6 1);
         mkLine (map timestamp data)
                (map (fun r =>
                        fdiv (fmul (total_energy_kWh r) (heatpump_pct r))
                             (of_Z 100))
                     data)
                "Heat Pump Consumption (kWh)" "orange" (decimal 8 1) ];
     fig_title :=
       ("Heat Pump vs Total Energy Consumption"
          ++ String newline ("Location: " ++ location))%string;
     fig_xlabel := "Time";
     fig_ylabel := "Energy (kWh)";
     fig_legend := true;
     fig_grid := true |}.

(** GET /heatpump/plot *)
Definition get_heatpump_plot (df : DataFrame) (location : string)
  : Response Figure :=
  let location_df := filter_location df location in
  if empty location_df then Raise (mkHTTPException 404 "Location not found")
  else
    let buf := generate_comparison_plot location_df location in
    Return buf.

(** ** The server

    The server as a transition system: the state is the global [df], a
    request yields a response and the next state.  No handler assigns to
    [df] or mutates it in place, so the next state is the state. *)
Inductive Request :=
| GetLocations (Town_ : option string)
| GetShare (location : string) (resolution : Resolution)
| GetSummary (location : string)
| GetPlot (location : string)
| GetReport (location : string).

Inductive Reply :=
| LocationsReply (locs : Outcome (list (string * string)))
| ShareReply (resolution : Resolution)
    (res : Response (list (key_type resolution * float64)))
| SummaryReply (res : Response Summary)
| PlotReply (res : Response Figure)
| ReportReply (res : Response DataFrame).

Definition handle (pd : Pandas) (py : Regex) (df : DataFrame) (req : Request)
  : Reply * DataFrame :=
  match req with
  | GetLocations t => (LocationsReply (Generic.list_locations py df t), df)
  | GetShare l r => (@ShareReply r (get_heatpump_share pd df l r), df)
  | GetSummary l => (SummaryReply (get_summary_metrics pd df l), df)
  | GetPlot l => (PlotReply (get_heatpump_plot df l), df)
  | GetReport l => (ReportReply (download_report df l), df)
  end.

(** Serving a sequence of requests: the replies, in order, and the final
    state. *)
Fixpoint serve (pd : Pandas) (py : Regex) (df : DataFrame)
    (reqs : list Request) : list Reply * DataFrame :=
  match reqs with
  | [] => ([], df)
  | req :: rest =>
      let (reply, df') := handle pd py df req in
      let (replies, df'') := serve pd py df' rest in
      (reply :: replies, df'')
  end.

(** The location guard shared by the handlers: every handler has the shape: filter by location, raise when the filter
    is empty, otherwise compute on the filtered frame. *)
Definition with_location_df (A : Type) (df : DataFrame) (location : string)
    (compute : DataFrame -> A) : Response A :=
  let location_df := filter_location df location in
  if empty location_df then Raise LocationNotFound
  else Return (compute location_df).

(** The rows of a frame that fall into bucket [k]. *)
Definition bucket_members (resolution : Resolution)
    (k : key_type resolution) (l : DataFrame) : DataFrame :=
  filter (fun r => eqb_key (bucket_key resolution r) k) l.

(** The counts of the buckets listed in [ks], added up. *)
Definition bucket_counts (resolution : Resolution)
    (ks : list (key_type resolution)) (l : DataFrame) : nat :=
  list_sum
    (map (fun k => List.length (bucket_members resolution k l)) ks).

(** [s] is [l] with some rows left out, the others in their order. *)
Inductive subseq {A : Type} : list A -> list A -> Prop :=
| subseq_nil : subseq [] []
| subseq_skip (x : A) (s l : list A) : subseq s l -> subseq s (x :: l)
| subseq_keep (x : A) (s l : list A) : subseq s l -> subseq (x :: s) (x :: l).

(** The real number that a finite [float64] stands for. *)
Definition to_Q (x : float64) : option Q :=
  match x with
  | S754_zero _ => Some 0%Q
  | S754_finite s m e =>
      Some (if 0 <=? e
            then inject_Z (cond_Zopp s (Zpos m * 2 ^ e))
            else Qmake (cond_Zopp s (Zpos m)) (Z.to_pos (2 ^ (- e))))
  | _ => None
  end.

(** The arithmetic mean of a series of finite numbers, as the
    specification words it: their exact sum divided by their number. *)
Fixpoint exact_sum (l : list float64) : option Q :=
  match l with
  | [] => Some 0%Q
  | x :: xs =>
      match to_Q x, exact_sum xs with
      | Some q, Some t => Some (q + t)%Q
      | _, _ => None
      end
  end.

Definition arithmetic_mean (l : list float64) : option Q :=
  option_map (fun t => (t / inject_Z (Z.of_nat (List.length l)))%Q)
             (exact_sum l).

(** [v] is the arithmetic mean of the series [l]. *)
Definition is_arithmetic_mean (l : list float64) (v : float64) : Prop :=
  exists q m : Q,
    to_Q v = Some q /\ arithmetic_mean l = Some m /\ (q == m)%Q.

(** [r] is [x] rounded to two decimal places, as the specification words
    it: [r] is the number written with two decimals whose hundredths are
    the whole number nearest to [100 x]. *)
Definition rounded_2dp (x r : float64) : Prop :=
  exists (q : Q) (n : Z),
    to_Q x = Some q /\
    (Qabs (q * 100 - inject_Z n) <= 1 # 2)%Q /\
    r = decimal n 2.

(** The town filter as the specification words it: [town] contains
    [sub] as a substring, letter case ignored. *)
Fixpoint prefix_ci (sub town : string) : bool :=
  match sub, town with
  | EmptyString, _ => true
  | String _ _, EmptyString => false
  | String a sub', String b town' =>
      Ascii.eqb (lower a) (lower b) && prefix_ci sub' town'
  end.

Fixpoint substring_ci (sub town : string) : bool :=
  prefix_ci sub town
  || match town with
     | EmptyString => false
     | String _ town' => substring_ci sub town'
     end.

(** ASCII upper-casing, and the two case forms of a filter string. *)
Definition upper (c : ascii) : ascii :=
  let n := N_of_ascii c in
  if ((97 <=? n) && (n <=? 122))%N then ascii_of_N (n - 32) else c.

Fixpoint map_string (f : ascii -> ascii) (s : string) : string :=
  match s with
  | EmptyString => EmptyString
  | String c s' => String (f c) (map_string f s')
  end.

(** A filter string without special characters. *)
Fixpoint plain (pat : string) : bool :=
  match pat with
  | EmptyString => true
  | String c rest => negb (is_special c) && plain rest
  end.

(** A filter string inside the modelled fragment: special characters
    other than [.] do not occur. *)
Fixpoint supported (pat : string) : bool :=
  match pat with
  | EmptyString => true
  | String c rest => (is_dot c || negb (is_special c)) && supported rest
  end.

(** The rows that [list_locations] keeps under a town filter. *)
Definition town_selected (Town_ : option string) (r : Row) : Prop :=
  match truthy Town_ with
  | Some pat => str_contains pat (Town r) = Some true
  | None => True
  end.

(** Ascending (not strictly) on the [Location] column. *)
Definition Location_le (p q : string * string) : Prop :=
  le_key (fst p) (fst q).

(** ** Outer whitespace of a string *)

(** The characters of ASCII, on which [is_space] and [lower] classify as
    Python does. *)
Definition is_ascii (c : ascii) : bool := (N_of_ascii c <? 128)%N.

Fixpoint ascii_only (s : string) : bool :=
  match s with
  | EmptyString => true
  | String c s' => is_ascii c && ascii_only s'
  end.

Fixpoint all_space (s : string) : bool :=
  match s with
  | EmptyString => true
  | String c s' => is_space c && all_space s'
  end.

Definition starts_with_space (s : string) : bool :=
  match s with
  | EmptyString => false
  | String c _ => is_space c
  end.

Fixpoint ends_with_space (s : string) : bool :=
  match s with
  | EmptyString => false
  | String c EmptyString => is_space c
  | String _ s' => ends_with_space s'
  end.

(** ** A small dataset

    Three observations of location "A" on one day, two of location "B" with
    percentages outside [0,100], in two towns; some names carry stray
    blanks, and one timestamp carries an offset. *)
Definition sample_rows : list RawRow :=
  [ mkRawRow (mkRaw 2023 1 31 9 0 0 0 0) " A " "Oslo" (of_Z 1) (of_Z 10);
    mkRawRow (mkRaw 2023 1 31 9 30 0 0 0) "A" "Oslo " (of_Z 2) (of_Z 20);
    mkRawRow (mkRaw 2023 1 31 23 30 0 0 60) "A" "Oslo" (of_Z 3) (of_Z 30);
    mkRawRow (mkRaw 2023 1 31 23 30 0 0 60) "B" "Bergen" (of_Z 4) (of_Z (-5));
    mkRawRow (mkRaw 2023 2 1 0 10 0 0 0) "B" "Bergen" (of_Z 5) (of_Z 150) ].

Definition sample_df : DataFrame := load sample_rows.

(** A record of location "A" with the value 2.675, and three records of
    location "B" with the value 0.025. *)
Definition half_cent_rows : list RawRow :=
  [ mkRawRow (mkRaw 2023 1 31 9 0 0 0 0) "A" "Oslo" (of_Z 1) (decimal 2675 3);
    mkRawRow (mkRaw 2023 1 31 9 0 0 0 0) "B" "Bergen" (of_Z 1) (decimal 25 3);
    mkRawRow (mkRaw 2023 1 31 9 10 0 0 0) "B" "Bergen" (of_Z 1) (decimal 25 3);
    mkRawRow (mkRaw 2023 1 31 9 20 0 0 0) "B" "Bergen" (of_Z 1)
             (decimal 25 3) ].

(** Three observations of one hour whose values cancel in floating point:
    1e16, 1 and -1e16. *)
Definition cancelling_rows : list RawRow :=
  [ mkRawRow (mkRaw 2023 1 31 9 0 0 0 0) "A" "Oslo"
             (of_Z 1) (of_Z (10 ^ 16));
    mkRawRow (mkRaw 2023 1 31 9 10 0 0 0) "A" "Oslo" (of_Z 1) (of_Z 1);
    mkRawRow (mkRaw 2023 1 31 9 20 0 0 0) "A" "Oslo"
             (of_Z 1) (of_Z (- 10 ^ 16)) ].

(** The same observations with the last two exchanged. *)
Definition cancelling_rows_reordered : list RawRow :=
  [ mkRawRow (mkRaw 2023 1 31 9 0 0 0 0) "A" "Oslo"
             (of_Z 1) (of_Z (10 ^ 16));
    mkRawRow (mkRaw 2023 1 31 9 20 0 0 0) "A" "Oslo"
             (of_Z 1) (of_Z (- 10 ^ 16));
    mkRawRow (mkRaw 2023 1 31 9 10 0 0 0) "A" "Oslo" (of_Z 1) (of_Z 1) ].

(** * Properties *)

(** ** The calendar *)

Ltac by_division := Z.div_mod_to_equations; lia.

(** The order of integers, tuples, dates and periods, spelled out. *)
Lemma lt_key_Z (a b : Z) : lt_key a b <-> a < b.
Proof. unfold lt_key; simpl. apply Z.compare_lt_iff. Qed.

Lemma le_key_Z (a b : Z) : le_key a b <-> a <= b.
Proof. unfold le_key; simpl. reflexivity. Qed.

Lemma le_key_pair {A B : Type} `{Ord A} `{Ord B} (x y : A * B) :
  le_key x y <->
  lt_key (fst x) (fst y) \/ (fst x = fst y /\ le_key (snd x) (snd y)).
Proof.
  unfold le_key, lt_key. simpl. unfold cmp_pair.
  destruct (cmp (fst x) (fst y)) eqn:E.
  - apply cmp_eq_iff in E. intuition congruence.
  - intuition congruence.
  - assert (fst x <> fst y)
      by (intros Heq; rewrite Heq, cmp_refl in E; discriminate).
    intuition congruence.
Qed.

Lemma le_key_date (c1 c2 : PyDate) : le_key c1 c2 <-> date_le c1 c2.
Proof.
  change (le_key c1 c2) with (le_key (date_tuple c1) (date_tuple c2)).
  rewrite !le_key_pair, !lt_key_Z, le_key_Z. unfold date_tuple, date_le.
  simpl. reflexivity.
Qed.

Lemma le_key_period (p1 p2 : Period) :
  le_key p1 p2 <->
  p_year p1 < p_year p2 \/ (p_year p1 = p_year p2 /\ p_month p1 <= p_month p2).
Proof.
  change (le_key p1 p2) with (le_key (period_tuple p1) (period_tuple p2)).
  rewrite le_key_pair, lt_key_Z, le_key_Z. unfold period_tuple.
  simpl. reflexivity.
Qed.

Lemma le_key_not_lt {K : Type} `{Ord K} (a b : K) :
  le_key a b -> ~ lt_key b a.
Proof.
  unfold le_key, lt_key. intros Hle Hlt.
  apply cmp_gt_lt in Hlt. contradiction.
Qed.

(** [civil_from_days] yields a month and a day of the calendar. *)
Lemma civil_from_days_valid z :
  let c := civil_from_days z in
  1 <= d_month c <= 12 /\ 1 <= d_day c <= 31.
Proof.
  cbv beta iota zeta delta [civil_from_days d_month d_day].
  repeat match goal with
         | |- context [if ?b then _ else _] => destruct b eqn:?
         end;
    rewrite ?Z.leb_le, ?Z.leb_gt, ?Z.ltb_lt, ?Z.ltb_ge in *; by_division.
Qed.

(** The day number of the civil date of a day number is that number. *)
Lemma days_from_civil_from_days z :
  let c := civil_from_days z in
  days_from_civil (d_year c) (d_month c) (d_day c) = z.
Proof.
  cbv beta iota zeta delta
    [civil_from_days days_from_civil d_year d_month d_day].
  repeat match goal with
         | |- context [if ?b then _ else _] => destruct b eqn:?
         end;
    rewrite ?Z.leb_le, ?Z.leb_gt, ?Z.ltb_lt, ?Z.ltb_ge in *; by_division.
Qed.

Lemma civil_from_days_inj z1 z2 :
  civil_from_days z1 = civil_from_days z2 -> z1 = z2.
Proof.
  intros Heq.
  rewrite <- (days_from_civil_from_days z1), <- (days_from_civil_from_days z2).
  cbv zeta. now rewrite Heq.
Qed.

(** The year of the era is recovered from the day of the era. *)
Lemma yoe_of_doe yoe doy :
  0 <= yoe <= 399 -> 0 <= doy <= 365 ->
  (doy = 365 -> yoe mod 4 = 3 /\ (yoe mod 100 <> 99 \/ yoe = 399)) ->
  let doe := yoe * 365 + yoe / 4 - yoe / 100 + doy in
  0 <= doe < 146097 /\
  (doe - doe / 1460 + doe / 36524 - doe / 146096) / 365 = yoe.
Proof. intros H1 H2 H3 doe. subst doe. by_division. Qed.

(** The month (counted from March) is recovered from the day of the year. *)
Lemma month_of_doy mp d :
  0 <= mp <= 11 ->
  1 <= d <= (if mp =? 11 then 29
             else if (mp =? 1) || (mp =? 3) || (mp =? 6) || (mp =? 8) then 30
             else 31) ->
  let doy := (153 * mp + 2) / 5 + d - 1 in
  (5 * doy + 2) / 153 = mp /\ 0 <= doy <= 365 /\
  (mp <> 11 \/ d <> 29 -> doy <= 364).
Proof.
  intros Hmp Hd doy. subst doy.
  assert (Hc : mp = 0 \/ mp = 1 \/ mp = 2 \/ mp = 3 \/ mp = 4 \/ mp = 5 \/
               mp = 6 \/ mp = 7 \/ mp = 8 \/ mp = 9 \/ mp = 10 \/ mp = 11)
    by lia.
  clear Hmp.
  repeat (destruct Hc as [->|Hc]); [ .. | subst mp]; cbn in Hd; by_division.
Qed.

(** The civil date of the day number of a calendar date is that date. *)
Lemma civil_from_days_from_civil y m d :
  1 <= m <= 12 -> 1 <= d <= days_in_month y m ->
  civil_from_days (days_from_civil y m d) = mkDate y m d.
Proof.
  intros Hm Hd.
  unfold days_from_civil.
  set (y' := if m <=? 2 then y - 1 else y).
  set (era := y' / 400).
  set (yoe := y' - era * 400).
  set (mp := if m <=? 2 then m + 9 else m - 3).
  set (doy := (153 * mp + 2) / 5 + d - 1).
  set (doe := yoe * 365 + yoe / 4 - yoe / 100 + doy).
  assert (Hyoe : 0 <= yoe <= 399) by (subst yoe era; by_division).
  assert (Hmp : 0 <= mp <= 11 /\ m = (if mp <? 10 then mp + 3 else mp - 9)).
  { subst mp. destruct (m <=? 2) eqn:E;
      [apply Z.leb_le in E | apply Z.leb_gt in E].
    - destruct (m + 9 <? 10) eqn:E'; [apply Z.ltb_lt in E' | ]; lia.
    - destruct (m - 3 <? 10) eqn:E'; [ | apply Z.ltb_ge in E']; lia. }
  destruct Hmp as (Hmp & Hm').
  assert (Hdm : 1 <= d <=
                (if mp =? 11 then 29
                 else if (mp =? 1) || (mp =? 3) || (mp =? 6) || (mp =? 8)
                      then 30 else 31)).
  { unfold days_in_month in Hd.
    assert (Hc : m = 1 \/ m = 2 \/ m = 3 \/ m = 4 \/ m = 5 \/ m = 6 \/ m = 7
                 \/ m = 8 \/ m = 9 \/ m = 10 \/ m = 11 \/ m = 12) by lia.
    unfold mp. clear - Hd Hc.
    repeat (destruct Hc as [Hc|Hc]); subst m; cbn -[is_leap] in Hd |- *;
      try lia; destruct (is_leap y); lia. }
  assert (Hleap : doy = 365 ->
                  yoe mod 4 = 3 /\ (yoe mod 100 <> 99 \/ yoe = 399)).
  { intros H365.
    destruct (@month_of_doy mp d Hmp Hdm) as (_ & _ & H364).
    fold doy in H364.
    assert (Hmd : mp = 11 /\ d = 29) by lia.
    destruct Hmd as [Hmp11 ->].
    assert (Hm2 : m = 2) by (rewrite Hm', Hmp11; reflexivity).
    assert (Hy' : y' = y - 1) by (unfold y'; rewrite Hm2; reflexivity).
    rewrite Hm2 in Hd.
    unfold days_in_month, is_leap in Hd. cbn -[Z.modulo] in Hd.
    destruct (y mod 4 =? 0) eqn:E4; destruct (y mod 100 =? 0) eqn:E100;
      destruct (y mod 400 =? 0) eqn:E400; cbn in Hd;
      rewrite ?Z.eqb_eq, ?Z.eqb_neq in *; try lia;
      subst yoe era; by_division. }
  destruct (@month_of_doy mp d Hmp Hdm) as (Hmp' & Hdoy & _).
  fold doy in Hmp', Hdoy.
  destruct (@yoe_of_doe yoe doy Hyoe Hdoy Hleap) as (Hdoe & Hyoe').
  fold doe in Hdoe, Hyoe'.
  unfold civil_from_days.
  replace (era * 146097 + doe - 719468 + 719468) with (era * 146097 + doe)
    by lia.
  replace ((era * 146097 + doe) / 146097) with era by by_division.
  replace (era * 146097 + doe - era * 146097) with doe by lia.
  cbv zeta. rewrite Hyoe'.
  replace (doe - (365 * yoe + yoe / 4 - yoe / 100)) with doy
    by (subst doe; lia).
  rewrite Hmp'.
  replace (doy - (153 * mp + 2) / 5 + 1) with d by (subst doy; lia).
  rewrite <- Hm'. f_equal.
  subst yoe y'. destruct (m <=? 2); lia.
Qed.

(** The stages of [civil_from_days], with their ranges. *)
Lemma civil_from_days_stages z :
  exists era doe yoe doy mp,
    z + 719468 = era * 146097 + doe /\ 0 <= doe < 146097 /\
    yoe = (doe - doe / 1460 + doe / 36524 - doe / 146096) / 365 /\
    doy = doe - (365 * yoe + yoe / 4 - yoe / 100) /\
    mp = (5 * doy + 2) / 153 /\
    0 <= yoe <= 399 /\ 0 <= doy <= 365 /\ 0 <= mp <= 11 /\
    civil_from_days z =
    mkDate (if mp <? 10 then yoe + era * 400 else yoe + era * 400 + 1)
           (if mp <? 10 then mp + 3 else mp - 9)
           (doy - (153 * mp + 2) / 5 + 1).
Proof.
  unfold civil_from_days.
  set (z' := z + 719468).
  set (era := z' / 146097).
  set (doe := z' - era * 146097).
  set (yoe := (doe - doe / 1460 + doe / 36524 - doe / 146096) / 365).
  set (doy := doe - (365 * yoe + yoe / 4 - yoe / 100)).
  set (mp := (5 * doy + 2) / 153).
  exists era, doe, yoe, doy, mp.
  assert (Hdoe : 0 <= doe < 146097) by (subst doe era; by_division).
  assert (Hy : 0 <= yoe <= 399 /\ 0 <= doy <= 365).
  { subst doy yoe. clearbody doe. by_division. }
  assert (Hmp : 0 <= mp <= 11).
  { subst mp. clearbody doy. by_division. }
  repeat split; try lia.
  cbv zeta. f_equal.
  destruct (mp <? 10) eqn:E; [apply Z.ltb_lt in E | apply Z.ltb_ge in E].
  - destruct (mp + 3 <=? 2) eqn:E'; [apply Z.leb_le in E'; lia | reflexivity].
  - destruct (mp - 9 <=? 2) eqn:E'; [reflexivity | apply Z.leb_gt in E'; lia].
Qed.

(** Later day numbers have later civil dates. *)
Lemma civil_from_days_mono z1 z2 :
  z1 <= z2 -> date_le (civil_from_days z1) (civil_from_days z2).
Proof.
  intros Hz.
  destruct (civil_from_days_stages z1)
    as (e1 & doe1 & yoe1 & doy1 & mp1 & Hz1 & Hdoe1 & Hyoe1 & Hdoy1 & Hmp1
        & Ry1 & Rd1 & Rm1 & ->).
  destruct (civil_from_days_stages z2)
    as (e2 & doe2 & yoe2 & doy2 & mp2 & Hz2 & Hdoe2 & Hyoe2 & Hdoy2 & Hmp2
        & Ry2 & Rd2 & Rm2 & ->).
  unfold date_le; cbn [d_year d_month d_day].
  assert (S1 : e1 < e2 \/ (e1 = e2 /\ doe1 <= doe2)) by lia.
  assert (S2 : doe1 <= doe2 ->
               yoe1 < yoe2 \/ (yoe1 = yoe2 /\ doy1 <= doy2)).
  { intros Hd. clear S1 Hz1 Hz2 Hmp1 Hmp2 Rm1 Rm2.
    subst doy1 doy2 yoe1 yoe2. by_division. }
  assert (S3 : doy1 <= doy2 ->
               mp1 < mp2 \/
               (mp1 = mp2 /\
                doy1 - (153 * mp1 + 2) / 5 + 1
                <= doy2 - (153 * mp2 + 2) / 5 + 1)).
  { intros Hd. clear S1 S2 Hz1 Hz2 Hdoy1 Hdoy2.
    subst mp1 mp2. by_division. }
  set (d1 := doy1 - (153 * mp1 + 2) / 5 + 1) in *.
  set (d2 := doy2 - (153 * mp2 + 2) / 5 + 1) in *.
  clearbody d1 d2. clear Hyoe1 Hyoe2 Hdoy1 Hdoy2 Hmp1 Hmp2.
  destruct (mp1 <? 10) eqn:E1; [apply Z.ltb_lt in E1 | apply Z.ltb_ge in E1];
    destruct (mp2 <? 10) eqn:E2;
    [apply Z.ltb_lt in E2 | apply Z.ltb_ge in E2
     | apply Z.ltb_lt in E2 | apply Z.ltb_ge in E2];
    lia.
Qed.

(** ** Bucket keys follow the clock *)

Lemma le_key_cases {K : Type} `{Ord K} (a b : K) :
  le_key a b -> lt_key a b \/ a = b.
Proof.
  unfold le_key, lt_key. destruct (cmp a b) eqn:E; intros Hle.
  - right. now apply cmp_eq_iff.
  - now left.
  - congruence.
Qed.

Lemma NS_PER_DAY_hours : NS_PER_DAY = NS_PER_HOUR * 24.
Proof. reflexivity. Qed.

Lemma dt_date_mono (ts1 ts2 : Timestamp) :
  ts1 <= ts2 -> le_key (dt_date ts1) (dt_date ts2).
Proof.
  intros Hts. apply le_key_date. unfold dt_date.
  apply civil_from_days_mono. apply Z.div_le_mono; [reflexivity | exact Hts].
Qed.

Lemma to_period_M_mono (ts1 ts2 : Timestamp) :
  ts1 <= ts2 ->
  le_key (to_period_M (tz_localize_None ts1))
         (to_period_M (tz_localize_None ts2)).
Proof.
  intros Hts. apply le_key_period.
  pose proof (dt_date_mono Hts) as Hd. apply le_key_date in Hd.
  unfold dt_date, date_le in Hd.
  unfold to_period_M, tz_localize_None. cbn [wall_ns p_year p_month].
  lia.
Qed.

Lemma dt_hour_mono_within_day (ts1 ts2 : Timestamp) :
  ts1 <= ts2 -> ts1 / NS_PER_DAY = ts2 / NS_PER_DAY ->
  dt_hour ts1 <= dt_hour ts2.
Proof.
  unfold dt_hour. rewrite NS_PER_DAY_hours.
  rewrite <- !Z.div_div by (unfold NS_PER_HOUR, NS_PER_SECOND; lia).
  intros Hts Hday.
  assert (Hh : ts1 / NS_PER_HOUR <= ts2 / NS_PER_HOUR)
    by (apply Z.div_le_mono; [reflexivity | exact Hts]).
  revert Hh Hday.
  generalize (ts1 / NS_PER_HOUR) (ts2 / NS_PER_HOUR). intros h1 h2 Hh Hday.
  by_division.
Qed.

(** At each resolution the bucket key never decreases with the instant. *)
Lemma bucket_key_mono (resolution : Resolution) (a b : RawRow) :
  timestamp (prepare_row a) <= timestamp (prepare_row b) ->
  le_key (bucket_key resolution (prepare_row a))
         (bucket_key resolution (prepare_row b)).
Proof.
  simpl. set (ts1 := to_datetime_utc (raw_timestamp a)).
  set (ts2 := to_datetime_utc (raw_timestamp b)). intros Hts.
  destruct resolution; simpl.
  - apply le_key_pair; simpl.
    destruct (le_key_cases (dt_date_mono Hts)) as [Hlt|Heq]; [now left|].
    right. split; [exact Heq|].
    apply le_key_Z. apply dt_hour_mono_within_day; [exact Hts|].
    now apply civil_from_days_inj.
  - now apply dt_date_mono.
  - now apply to_period_M_mono.
Qed.

(** A smaller bucket key belongs to an earlier instant. *)
Lemma bucket_key_chronological (resolution : Resolution) (a b : RawRow) :
  lt_key (bucket_key resolution (prepare_row a))
         (bucket_key resolution (prepare_row b)) ->
  timestamp (prepare_row a) < timestamp (prepare_row b).
Proof.
  intros Hlt.
  destruct (Z.lt_ge_cases (timestamp (prepare_row a))
                          (timestamp (prepare_row b))) as [H|H];
    [exact H|].
  exfalso. exact (le_key_not_lt (bucket_key_mono resolution b a H) Hlt).
Qed.

(** A valid timestamp given in UTC is bucketed under its own fields. *)
Lemma utc_fields (u : RawTimestamp) :
  valid_raw u -> raw_utcoffset u = 0 ->
  let ts := to_datetime_utc u in
  dt_date ts = mkDate (raw_year u) (raw_month u) (raw_day u) /\
  dt_hour ts = raw_hour u /\
  to_period_M (tz_localize_None ts) = mkPeriod (raw_year u) (raw_month u).
Proof.
  intros (Hm & Hd & Hh & Hmi & Hs & Hn) Hoff ts.
  assert (Hday : ts / NS_PER_DAY
                 = days_from_civil (raw_year u) (raw_month u) (raw_day u)).
  { subst ts. unfold to_datetime_utc. rewrite Hoff.
    generalize (days_from_civil (raw_year u) (raw_month u) (raw_day u)).
    intros n.
    unfold NS_PER_DAY, NS_PER_HOUR, NS_PER_MINUTE, NS_PER_SECOND in *.
    by_division. }
  assert (Hhour : dt_hour ts = raw_hour u).
  { subst ts. unfold dt_hour, to_datetime_utc. rewrite Hoff.
    generalize (days_from_civil (raw_year u) (raw_month u) (raw_day u)).
    intros n.
    unfold NS_PER_DAY, NS_PER_HOUR, NS_PER_MINUTE, NS_PER_SECOND in *.
    by_division. }
  unfold dt_date, to_period_M, tz_localize_None; cbn [wall_ns].
  rewrite Hday, civil_from_days_from_civil by assumption.
  repeat split; [exact Hhour].
Qed.

(** ** Grouping *)

Section GroupByFacts.
Context {K : Type} `{Ord K} {A : Type}.
Implicit Types (gs : list (K * list A)) (l : list A).

Lemma add_to_group_keys (k : K) (a : A) gs k' :
  In k' (group_keys (add_to_group k a gs)) <-> k' = k \/ In k' (group_keys gs).
Proof.
  induction gs as [|[k0 g0] gs IH]; simpl.
  - intuition.
  - destruct (cmp k k0) eqn:E; simpl.
    + apply cmp_eq_iff in E; subst. intuition.
    + intuition.
    + rewrite IH. intuition.
Qed.

Lemma add_to_group_sorted (k : K) (a : A) gs :
  keys_sorted gs -> keys_sorted (add_to_group k a gs).
Proof.
  unfold keys_sorted.
  induction gs as [|[k0 g0] gs IH]; simpl; intros Hs.
  - repeat constructor.
  - inversion Hs as [|? ? Hs' Hall]; subst.
    destruct (cmp k k0) eqn:E; simpl.
    + constructor; assumption.
    + constructor; [assumption|].
      constructor; [exact E|].
      eapply Forall_impl; [|exact Hall].
      intros k1 H1. exact (lt_key_trans E H1).
    + constructor; [now apply IH|].
      apply Forall_forall. intros k1 Hin.
      apply add_to_group_keys in Hin. destruct Hin as [->|Hin].
      * now apply cmp_gt_lt.
      * rewrite Forall_forall in Hall. now apply Hall.
Qed.

Lemma add_to_group_total (k : K) (a : A) gs :
  total_count (add_to_group k a gs) = S (total_count gs).
Proof.
  induction gs as [|[k0 g0] gs IH]; simpl; [reflexivity|].
  destruct (cmp k k0); simpl.
  - rewrite length_app; simpl. lia.
  - reflexivity.
  - rewrite IH. lia.
Qed.

Lemma add_to_group_nonempty (k : K) (a : A) gs :
  Forall (fun kg => snd kg <> []) gs ->
  Forall (fun kg => snd kg <> []) (add_to_group k a gs).
Proof.
  induction gs as [|[k0 g0] gs IH]; simpl; intros Hne.
  - constructor; [discriminate | constructor].
  - inversion Hne as [|? ? H0 Hrest]; subst.
    destruct (cmp k k0).
    + constructor; [|assumption]. simpl. now destruct g0.
    + constructor; [discriminate | assumption].
    + constructor; [assumption | now apply IH].
Qed.

Lemma find_group_absent (k : K) gs :
  ~ In k (group_keys gs) -> find_group k gs = [].
Proof.
  induction gs as [|[k0 g0] gs IH]; simpl; intros Hn; [reflexivity|].
  destruct (eqb_key k k0) eqn:E.
  - apply eqb_key_true in E. subst. tauto.
  - apply IH. tauto.
Qed.

Lemma sorted_head_absent (k k0 : K) ks :
  lt_key k k0 -> StronglySorted lt_key (k0 :: ks) -> ~ In k (k0 :: ks).
Proof.
  intros Hlt Hs [->|Hin].
  - exact (lt_key_irrefl Hlt).
  - inversion Hs as [|? ? _ Hall]; subst.
    rewrite Forall_forall in Hall.
    exact (lt_key_irrefl (lt_key_trans Hlt (Hall _ Hin))).
Qed.

Lemma find_group_add_same (k : K) (a : A) gs :
  keys_sorted gs ->
  find_group k (add_to_group k a gs) = find_group k gs ++ [a].
Proof.
  unfold keys_sorted.
  induction gs as [|[k0 g0] gs IH]; simpl; intros Hs.
  - now rewrite eqb_key_refl.
  - destruct (cmp k k0) eqn:E; simpl.
    + unfold eqb_key. now rewrite E.
    + rewrite eqb_key_refl.
      unfold eqb_key at 1. rewrite E.
      rewrite find_group_absent; [reflexivity|].
      intros Hin.
      apply (sorted_head_absent E Hs). now right.
    + unfold eqb_key at 1 2. rewrite E.
      apply IH. now inversion Hs.
Qed.

Lemma find_group_add_other (k k' : K) (a : A) gs :
  k' <> k -> find_group k' (add_to_group k a gs) = find_group k' gs.
Proof.
  intros Hne.
  induction gs as [|[k0 g0] gs IH]; simpl.
  - apply eqb_key_false in Hne. now rewrite Hne.
  - destruct (cmp k k0) eqn:E; simpl.
    + apply cmp_eq_iff in E; subst.
      apply eqb_key_false in Hne. now rewrite Hne.
    + apply eqb_key_false in Hne. now rewrite Hne.
    + now rewrite IH.
Qed.

Lemma find_group_In (k : K) (g : list A) gs :
  keys_sorted gs -> In (k, g) gs -> find_group k gs = g.
Proof.
  unfold keys_sorted.
  induction gs as [|[k0 g0] gs IH]; simpl; intros Hs Hin; [tauto|].
  inversion Hs as [|? ? Hs' Hall]; subst.
  destruct Hin as [[= -> ->]|Hin].
  - now rewrite eqb_key_refl.
  - destruct (eqb_key k k0) eqn:E.
    + apply eqb_key_true in E; subst.
      rewrite Forall_forall in Hall.
      exfalso. apply (@lt_key_irrefl _ _ k0). apply Hall.
      unfold group_keys. change k0 with (fst (k0, g)). now apply in_map.
    + now apply IH.
Qed.

Lemma In_find_group (k : K) gs :
  In k (group_keys gs) -> In (k, find_group k gs) gs.
Proof.
  induction gs as [|[k0 g0] gs IH]; simpl; [tauto|].
  intros [->|Hin].
  - rewrite eqb_key_refl. now left.
  - destruct (eqb_key k k0) eqn:E.
    + apply eqb_key_true in E; subst. now left.
    + right. now apply IH.
Qed.

Variable key : A -> K.

Let step (gs : list (K * list A)) (a : A) := add_to_group (key a) a gs.

Lemma fold_groups_sorted l gs :
  keys_sorted gs -> keys_sorted (fold_left step l gs).
Proof.
  revert gs. induction l as [|a l IH]; simpl; intros gs Hs; [assumption|].
  apply IH. now apply add_to_group_sorted.
Qed.

Lemma fold_groups_keys l gs k :
  In k (group_keys (fold_left step l gs)) <->
  In k (group_keys gs) \/ In k (map key l).
Proof.
  revert gs. induction l as [|a l IH]; simpl; intros gs.
  - tauto.
  - rewrite IH. unfold step. rewrite add_to_group_keys.
    intuition.
Qed.

Lemma fold_groups_find l gs k :
  keys_sorted gs ->
  find_group k (fold_left step l gs) =
  find_group k gs ++ filter (fun a => eqb_key (key a) k) l.
Proof.
  revert gs. induction l as [|a l IH]; simpl; intros gs Hs.
  - now rewrite app_nil_r.
  - rewrite IH by now apply add_to_group_sorted.
    unfold step.
    destruct (eqb_key (key a) k) eqn:E.
    + apply eqb_key_true in E; subst.
      rewrite find_group_add_same by assumption.
      now rewrite <- app_assoc.
    + apply eqb_key_false in E.
      rewrite find_group_add_other by congruence. reflexivity.
Qed.

Lemma fold_groups_total l gs :
  total_count (fold_left step l gs) = (total_count gs + List.length l)%nat.
Proof.
  revert gs. induction l as [|a l IH]; simpl; intros gs; [lia|].
  rewrite IH. unfold step. rewrite add_to_group_total. lia.
Qed.

Lemma fold_groups_nonempty l gs :
  Forall (fun kg => snd kg <> []) gs ->
  Forall (fun kg => snd kg <> []) (fold_left step l gs).
Proof.
  revert gs. induction l as [|a l IH]; simpl; intros gs Hne; [assumption|].
  apply IH. now apply add_to_group_nonempty.
Qed.

(** The groups are ordered by strictly increasing key. *)
Lemma groupby_sorted l : keys_sorted (groupby key l).
Proof. apply fold_groups_sorted. constructor. Qed.

(** The keys of the groups are the keys that occur in the frame. *)
Lemma groupby_keys l k :
  In k (group_keys (groupby key l)) <-> In k (map key l).
Proof.
  unfold groupby. fold step. rewrite fold_groups_keys. simpl. tauto.
Qed.

(** A group holds the rows of its key, in the order of the frame. *)
Lemma groupby_members l k g :
  In (k, g) (groupby key l) ->
  g = filter (fun a => eqb_key (key a) k) l.
Proof.
  intros Hin.
  rewrite <- (@find_group_In k g _ (groupby_sorted l) Hin).
  unfold groupby. fold step.
  rewrite fold_groups_find by constructor. reflexivity.
Qed.

Lemma groupby_nonempty l :
  Forall (fun kg => snd kg <> []) (groupby key l).
Proof. apply fold_groups_nonempty. constructor. Qed.

(** The groups partition the frame. *)
Lemma groupby_total l : total_count (groupby key l) = List.length l.
Proof. unfold groupby. fold step. now rewrite fold_groups_total. Qed.
End GroupByFacts.

(** ** The order of floating-point numbers and the extreme values *)

Lemma SFcompare_rank (x y : float64) :
  isnan x = false -> isnan y = false ->
  exists c, SFcompare x y = Some c /\
            (c = Lt <-> rank_lt (rank x) (rank y)) /\
            (c = Eq <-> rank x = rank y) /\
            (c = Gt <-> rank_lt (rank y) (rank x)).
Proof.
  intros Hx Hy.
  destruct x as [[]|[]| |[] mx ex], y as [[]|[]| |[] my ey];
    try discriminate; cbn [SFcompare rank]; eexists; (split; [reflexivity|]);
    unfold rank_lt; cbn [fst snd];
    try (repeat split; intros H; try discriminate H; try reflexivity;
         try lia; try (inversion H; lia); fail).
  - change (Pos.compare_cont Eq mx my) with (Pos.compare mx my).
    destruct (Z.compare_spec ex ey); [destruct (Pos.compare_spec mx my)| |];
      cbn [CompOpp]; repeat split; intros H'; try discriminate H';
      try reflexivity; try lia; try (inversion H'; lia);
      try (f_equal; f_equal; lia).
  - change (Pos.compare_cont Eq mx my) with (Pos.compare mx my).
    destruct (Z.compare_spec ex ey); [destruct (Pos.compare_spec mx my)| |];
      repeat split; intros H'; try discriminate H';
      try reflexivity; try lia; try (inversion H'; lia);
      try (f_equal; f_equal; lia).
Qed.

Lemma fle_not_nan (x y : float64) :
  fle x y = true -> isnan x = false /\ isnan y = false.
Proof.
  unfold fle, SFleb.
  destruct x as [[]|[]| |[] mx ex], y as [[]|[]| |[] my ey];
    cbn [SFcompare isnan]; intros H; try discriminate H; split; reflexivity.
Qed.

Lemma flt_not_nan (x y : float64) :
  flt x y = true -> isnan x = false /\ isnan y = false.
Proof.
  unfold flt, SFltb.
  destruct x as [[]|[]| |[] mx ex], y as [[]|[]| |[] my ey];
    cbn [SFcompare isnan]; intros H; try discriminate H; split; reflexivity.
Qed.

Lemma fle_rank (x y : float64) :
  fle x y = true <->
  isnan x = false /\ isnan y = false /\
  (rank_lt (rank x) (rank y) \/ rank x = rank y).
Proof.
  split.
  - intros H. destruct (@fle_not_nan x y H) as [Hx Hy].
    split; [exact Hx|]. split; [exact Hy|].
    destruct (@SFcompare_rank x y Hx Hy) as (c & Hc & Hlt & Heq & _).
    unfold fle, SFleb in H. rewrite Hc in H.
    destruct c; [right; now apply Heq | left; now apply Hlt | discriminate].
  - intros (Hx & Hy & H).
    destruct (@SFcompare_rank x y Hx Hy) as (c & Hc & Hlt & Heq & _).
    unfold fle, SFleb. rewrite Hc.
    destruct H as [H|H]; [apply Hlt in H | apply Heq in H]; now subst c.
Qed.

Lemma flt_rank (x y : float64) :
  flt x y = true <->
  isnan x = false /\ isnan y = false /\ rank_lt (rank x) (rank y).
Proof.
  split.
  - intros H. destruct (@flt_not_nan x y H) as [Hx Hy].
    split; [exact Hx|]. split; [exact Hy|].
    destruct (@SFcompare_rank x y Hx Hy) as (c & Hc & Hlt & _).
    unfold flt, SFltb in H. rewrite Hc in H.
    destruct c; try discriminate. now apply Hlt.
  - intros (Hx & Hy & H).
    destruct (@SFcompare_rank x y Hx Hy) as (c & Hc & Hlt & _).
    unfold flt, SFltb. rewrite Hc. apply Hlt in H. now subst c.
Qed.

Lemma feq_rank (x y : float64) :
  feq x y = true <->
  isnan x = false /\ isnan y = false /\ rank x = rank y.
Proof.
  split.
  - intros H.
    assert (Hn : isnan x = false /\ isnan y = false).
    { unfold feq, SFeqb in H.
      destruct x as [[]|[]| |[] mx ex], y as [[]|[]| |[] my ey];
        cbn [SFcompare isnan] in *; try discriminate H; split; reflexivity. }
    destruct Hn as [Hx Hy]. split; [exact Hx|]. split; [exact Hy|].
    destruct (@SFcompare_rank x y Hx Hy) as (c & Hc & _ & Heq & _).
    unfold feq, SFeqb in H. rewrite Hc in H.
    destruct c; try discriminate. now apply Heq.
  - intros (Hx & Hy & H).
    destruct (@SFcompare_rank x y Hx Hy) as (c & Hc & _ & Heq & _).
    unfold feq, SFeqb. rewrite Hc. apply Heq in H. now subst c.
Qed.

Lemma fle_refl (x : float64) : isnan x = false -> fle x x = true.
Proof. intros Hx. apply fle_rank. auto. Qed.

Lemma fle_trans (x y z : float64) :
  fle x y = true -> fle y z = true -> fle x z = true.
Proof.
  rewrite !fle_rank. intros (Hx & _ & H1) (_ & Hz & H2).
  split; [exact Hx|]. split; [exact Hz|].
  destruct H1 as [H1|H1], H2 as [H2|H2].
  - left. unfold rank_lt in *. lia.
  - left. now rewrite <- H2.
  - left. now rewrite H1.
  - right. congruence.
Qed.

Lemma flt_false_fle (x y : float64) :
  isnan x = false -> isnan y = false -> flt x y = false -> fle y x = true.
Proof.
  intros Hx Hy H. apply fle_rank. split; [exact Hy|]. split; [exact Hx|].
  destruct (@SFcompare_rank x y Hx Hy) as (c & Hc & Hlt & Heq & Hgt).
  unfold flt, SFltb in H. rewrite Hc in H.
  destruct c; [right; symmetry; now apply Heq | discriminate
              | left; now apply Hgt].
Qed.

Lemma flt_fle (x y : float64) : flt x y = true -> fle x y = true.
Proof. rewrite flt_rank, fle_rank. tauto. Qed.

Lemma fle_antisym (x y : float64) :
  fle x y = true -> fle y x = true -> feq x y = true.
Proof.
  rewrite !fle_rank, feq_rank. intros (Hx & Hy & H1) (_ & _ & H2).
  split; [exact Hx|]. split; [exact Hy|].
  destruct H1 as [H1|H1]; [|exact H1].
  destruct H2 as [H2|H2]; [|now symmetry].
  exfalso. unfold rank_lt in *. lia.
Qed.

Lemma dropna_In (l : list float64) (x : float64) :
  In x (dropna l) <-> In x l /\ isnan x = false.
Proof. unfold dropna. rewrite filter_In, negb_true_iff. reflexivity. Qed.

Lemma fold_fmax_spec (xs : list float64) (x : float64) :
  isnan x = false -> Forall (fun v => isnan v = false) xs ->
  let m := fold_left fmax xs x in
  In m (x :: xs) /\ Forall (fun v => fle v m = true) (x :: xs).
Proof.
  revert x. induction xs as [|y xs IH]; intros x Hx Hall; cbn [fold_left].
  - split; [now left|]. constructor; [now apply fle_refl | constructor].
  - inversion Hall as [|? ? Hy Hrest]; subst.
    assert (Hm : isnan (fmax x y) = false)
      by (unfold fmax; destruct (flt x y); assumption).
    destruct (IH (fmax x y) Hm Hrest) as [Hin Hub]. cbv zeta in Hin, Hub.
    inversion Hub as [|? ? Hxy Hxs]; subst.
    assert (Hx' : fle x (fmax x y) = true)
      by (unfold fmax; destruct (flt x y) eqn:E;
          [now apply flt_fle | now apply fle_refl]).
    assert (Hy' : fle y (fmax x y) = true)
      by (unfold fmax; destruct (flt x y) eqn:E;
          [now apply fle_refl | now apply flt_false_fle]).
    split.
    + destruct Hin as [Hin|Hin]; [|right; now right].
      rewrite <- Hin. unfold fmax. destruct (flt x y); simpl; auto.
    + constructor; [exact (@fle_trans _ _ _ Hx' Hxy)|].
      constructor; [exact (@fle_trans _ _ _ Hy' Hxy) | exact Hxs].
Qed.

Lemma fold_fmin_spec (xs : list float64) (x : float64) :
  isnan x = false -> Forall (fun v => isnan v = false) xs ->
  let m := fold_left fmin xs x in
  In m (x :: xs) /\ Forall (fun v => fle m v = true) (x :: xs).
Proof.
  revert x. induction xs as [|y xs IH]; intros x Hx Hall; cbn [fold_left].
  - split; [now left|]. constructor; [now apply fle_refl | constructor].
  - inversion Hall as [|? ? Hy Hrest]; subst.
    assert (Hm : isnan (fmin x y) = false)
      by (unfold fmin; destruct (flt y x); assumption).
    destruct (IH (fmin x y) Hm Hrest) as [Hin Hub]. cbv zeta in Hin, Hub.
    inversion Hub as [|? ? Hxy Hxs]; subst.
    assert (Hx' : fle (fmin x y) x = true)
      by (unfold fmin; destruct (flt y x) eqn:E;
          [now apply flt_fle | now apply fle_refl]).
    assert (Hy' : fle (fmin x y) y = true)
      by (unfold fmin; destruct (flt y x) eqn:E;
          [now apply fle_refl | now apply flt_false_fle]).
    split.
    + destruct Hin as [Hin|Hin]; [|right; now right].
      rewrite <- Hin. unfold fmin. destruct (flt y x); simpl; auto.
    + constructor; [exact (@fle_trans _ _ _ Hxy Hx')|].
      constructor; [exact (@fle_trans _ _ _ Hxy Hy') | exact Hxs].
Qed.

Lemma dropna_not_nan (l : list float64) :
  Forall (fun v => isnan v = false) (dropna l).
Proof. apply Forall_forall. intros x Hx. now apply dropna_In in Hx. Qed.

(** [Series.max] of a series with a value that is not NaN is one of these
    values, and none of them is greater. *)
Lemma series_max_spec (l : list float64) :
  dropna l <> [] ->
  In (series_max l) (dropna l) /\
  Forall (fun v => fle v (series_max l) = true) (dropna l).
Proof.
  intros Hne. unfold series_max.
  pose proof (dropna_not_nan l) as Hall.
  destruct (dropna l) as [|x xs]; [congruence|].
  inversion Hall; subst. now apply fold_fmax_spec.
Qed.

Lemma series_min_spec (l : list float64) :
  dropna l <> [] ->
  In (series_min l) (dropna l) /\
  Forall (fun v => fle (series_min l) v = true) (dropna l).
Proof.
  intros Hne. unfold series_min.
  pose proof (dropna_not_nan l) as Hall.
  destruct (dropna l) as [|x xs]; [congruence|].
  inversion Hall; subst. now apply fold_fmin_spec.
Qed.

Lemma dropna_all_nan (l : list float64) :
  dropna l = [] -> forall x, In x l -> x = nan.
Proof.
  intros He x Hin. destruct (isnan x) eqn:E.
  - destruct x; try discriminate. reflexivity.
  - assert (H : In x (dropna l)) by now apply dropna_In.
    rewrite He in H. destruct H.
Qed.

(** In any case the result is a value of the series. *)
Lemma series_max_In (l : list float64) : l <> [] -> In (series_max l) l.
Proof.
  intros Hne. destruct (dropna l) as [|x xs] eqn:E.
  - unfold series_max. rewrite E. destruct l as [|y l]; [congruence|].
    rewrite <- (@dropna_all_nan _ E y) by now left. now left.
  - assert (H : dropna l <> []) by (rewrite E; discriminate).
    apply (dropna_In l). apply (@series_max_spec l H).
Qed.

Lemma series_min_In (l : list float64) : l <> [] -> In (series_min l) l.
Proof.
  intros Hne. destruct (dropna l) as [|x xs] eqn:E.
  - unfold series_min. rewrite E. destruct l as [|y l]; [congruence|].
    rewrite <- (@dropna_all_nan _ E y) by now left. now left.
  - assert (H : dropna l <> []) by (rewrite E; discriminate).
    apply (dropna_In l). apply (@series_min_spec l H).
Qed.

(** ** The location guard shared by the handlers *)

Lemma empty_true df : empty df = true <-> df = [].
Proof. destruct df; simpl; split; congruence. Qed.

Lemma get_heatpump_share_guard pd df location resolution :
  get_heatpump_share pd df location resolution =
  with_location_df df location (groupby_mean pd (bucket_key resolution)).
Proof.
  unfold get_heatpump_share, with_location_df.
  destruct (empty (filter_location df location)); [reflexivity|].
  destruct resolution; reflexivity.
Qed.

Lemma get_summary_metrics_guard pd df location :
  get_summary_metrics pd df location =
  with_location_df df location (fun location_df =>
    {| location_ := location;
       average_heatpump_pct :=
         round2 (Series_mean pd (map heatpump_pct location_df));
       max_heatpump_pct := round2 (series_max (map heatpump_pct location_df));
       min_heatpump_pct := round2 (series_min (map heatpump_pct location_df));
       data_points := List.length location_df |}).
Proof. reflexivity. Qed.

Lemma download_report_guard df location :
  download_report df location = with_location_df df location (fun d => d).
Proof. reflexivity. Qed.

Lemma with_location_df_raise (A : Type) df location (compute : DataFrame -> A) :
  filter_location df location = [] ->
  with_location_df df location compute = Raise LocationNotFound.
Proof. unfold with_location_df. now intros ->. Qed.

Lemma with_location_df_return (A : Type) df location
    (compute : DataFrame -> A) :
  filter_location df location <> [] ->
  with_location_df df location compute =
  Return (compute (filter_location df location)).
Proof.
  unfold with_location_df. intros Hne.
  destruct (filter_location df location); [congruence | reflexivity].
Qed.

Lemma with_location_df_cases (A : Type) df location
    (compute : DataFrame -> A) :
  (filter_location df location = [] /\
   with_location_df df location compute = Raise LocationNotFound) \/
  (filter_location df location <> [] /\
   with_location_df df location compute =
   Return (compute (filter_location df location))).
Proof.
  destruct (filter_location df location) as [|r l] eqn:E.
  - left. split; [reflexivity|]. now apply with_location_df_raise.
  - right. split; [discriminate|].
    rewrite <- E. apply with_location_df_return. rewrite E. discriminate.
Qed.

(** The mask [df['Location'] == location] is exact string equality. *)
Lemma filter_location_In df location r :
  In r (filter_location df location) <-> In r df /\ Location r = location.
Proof.
  unfold filter_location. rewrite filter_In, String.eqb_eq. reflexivity.
Qed.

Lemma filter_location_empty df location :
  filter_location df location = [] <->
  forall r, In r df -> Location r <> location.
Proof.
  split.
  - intros He r Hin Hloc.
    assert (Hr : In r (filter_location df location))
      by now apply filter_location_In.
    rewrite He in Hr. exact Hr.
  - intros Hall. destruct (filter_location df location) as [|r l] eqn:E;
      [reflexivity|].
    assert (Hr : In r (filter_location df location)) by (rewrite E; now left).
    apply filter_location_In in Hr. destruct Hr as [Hin Hloc].
    exfalso. exact (Hall r Hin Hloc).
Qed.

(** ** The aggregator *)

Lemma bucket_members_In resolution k l r :
  In r (bucket_members resolution k l) <->
  In r l /\ bucket_key resolution r = k.
Proof.
  unfold bucket_members. rewrite filter_In, eqb_key_true. reflexivity.
Qed.

Lemma groupby_mean_keys pd {K : Type} `{Ord K} (key : Row -> K)
    (l : DataFrame) :
  map fst (groupby_mean pd key l) = group_keys (groupby key l).
Proof.
  unfold groupby_mean, group_keys. rewrite map_map. reflexivity.
Qed.

Lemma groupby_mean_In pd {K : Type} `{Ord K} (key : Row -> K)
    (l : DataFrame) (k : K) (v : float64) :
  In (k, v) (groupby_mean pd key l) ->
  let members := filter (fun r => eqb_key (key r) k) l in
  members <> [] /\ v = SeriesGroupBy_mean pd (map heatpump_pct members).
Proof.
  unfold groupby_mean. intros Hin.
  apply in_map_iff in Hin. destruct Hin as ([k' g] & [= <- <-] & Hin).
  simpl. pose proof (@groupby_members _ _ _ key l _ _ Hin) as Hg.
  pose proof (@groupby_nonempty _ _ _ key l) as Hne.
  rewrite Forall_forall in Hne. specialize (Hne _ Hin). simpl in Hne.
  rewrite <- Hg. split; [exact Hne | reflexivity].
Qed.

Lemma share_cases pd df location resolution :
  (filter_location df location = [] /\
   get_heatpump_share pd df location resolution = Raise LocationNotFound) \/
  (filter_location df location <> [] /\
   get_heatpump_share pd df location resolution =
   Return (groupby_mean pd (bucket_key resolution)
                        (filter_location df location))).
Proof.
  rewrite get_heatpump_share_guard. apply with_location_df_cases.
Qed.

Lemma total_count_members {K : Type} `{Ord K} (key : Row -> K)
    (l : DataFrame) (gs : list (K * list Row)) :
  (forall k g, In (k, g) gs -> g = filter (fun r => eqb_key (key r) k) l) ->
  total_count gs =
  list_sum
    (map (fun k => List.length (filter (fun r => eqb_key (key r) k) l))
         (group_keys gs)).
Proof.
  induction gs as [|[k g] gs IH]; simpl; intros Hall; [reflexivity|].
  rewrite IH by (intros k' g' Hin; apply Hall; now right).
  rewrite <- (Hall k g) by now left. reflexivity.
Qed.

Lemma strictly_sorted_NoDup {K : Type} `{Ord K} (ks : list K) :
  StronglySorted lt_key ks -> NoDup ks.
Proof.
  induction 1 as [|k ks Hs IH Hall]; constructor; [|assumption].
  intros Hin. rewrite Forall_forall in Hall.
  exact (lt_key_irrefl (Hall _ Hin)).
Qed.

(** The value of a finite number, by cases on its exponent. *)
Lemma to_Q_finite (s : bool) (m : positive) (e : Z) :
  exists (z : Z) (k : nat),
    to_Q (S754_finite s m e) = Some (Qmake z (Z.to_pos (2 ^ Z.of_nat k))).
Proof.
  cbn [to_Q]. destruct (Z.leb_spec 0 e) as [He|He].
  - exists (cond_Zopp s (Zpos m * 2 ^ e)), 0%nat. reflexivity.
  - exists (cond_Zopp s (Zpos m)), (Z.to_nat (- e)).
    rewrite Z2Nat.id by lia. reflexivity.
Qed.

Lemma pow2_mod3 (k : nat) : (2 ^ Z.of_nat k) mod 3 <> 0.
Proof.
  induction k as [|k IH].
  - discriminate.
  - rewrite Nat2Z.inj_succ, Z.pow_succ_r by lia.
    revert IH. generalize (2 ^ Z.of_nat k). intros z IH. by_division.
Qed.

(** One third is not a binary64 number. *)
Lemma one_third_is_no_float (x : float64) (q : Q) :
  to_Q x = Some q -> ~ (q == 1 # 3)%Q.
Proof.
  destruct x as [s|s| |s m e]; cbn [to_Q]; try discriminate.
  - intros [= <-]. discriminate.
  - destruct (to_Q_finite s m e) as (z & k & Hq). cbn [to_Q] in Hq.
    rewrite Hq. intros [= <-]. unfold Qeq. cbn [Qnum Qden].
    rewrite Z2Pos.id by (apply Z.pow_pos_nonneg; lia).
    intros H. pose proof (pow2_mod3 k) as Hk.
    revert H Hk. generalize (2 ^ Z.of_nat k). intros p H Hk. by_division.
Qed.



(** The value of a bucket is not the arithmetic mean of the specification:
    the three values 1e16, 1 and -1e16 of one day have the arithmetic mean
    one third, which no binary64 number equals, so no bucket value can be
    that mean whatever the summation; with the reference summation the
    bucket value is 0. *)
Lemma bucket_value_is_not_the_arithmetic_mean :
  let df := load cancelling_rows in
  let values := map heatpump_pct (filter_location df "A") in
  (exists m, arithmetic_mean values = Some m /\ (m == 1 # 3)%Q) /\
  (forall (pd : Pandas) out k v,
      get_heatpump_share pd df "A" daily = Return out ->
      In (k, v) out ->
      map heatpump_pct (bucket_members daily k (filter_location df "A"))
      = values /\
      ~ is_arithmetic_mean values v) /\
  get_heatpump_share reference_pandas df "A" daily
  = Return [(mkDate 2023 1 31, S754_zero false)].
Proof.
  intros df values. split; [|split].
  - eexists. split; [reflexivity|]. reflexivity.
  - intros pd out k v Hout Hin.
    assert (Hk : out = [(mkDate 2023 1 31,
                         SeriesGroupBy_mean pd values)]).
    { vm_compute in Hout. injection Hout as <-. reflexivity. }
    subst out. destruct Hin as [[= <- <-]|[]].
    split; [reflexivity|].
    intros (q & m & Hq & Hm & Heq).
    apply (one_third_is_no_float _ Hq).
    rewrite Heq. vm_compute in Hm. injection Hm as <-. reflexivity.
  - reflexivity.
Qed.

(** C2. [get_heatpump_share] and [get_summary_metrics] raise the 404
    "Location not found" exception exactly when no row of the frame has a
    [Location] equal to the queried string (for a loaded frame: when no raw
    location, stripped, equals it; the comparison tells "a" from "A"); they
    raise nothing else, and the aggregation or the statistics are computed
    only on a non-empty frame.  An unknown location is therefore answered
    with that exception. *)
Theorem location_not_found_iff_no_record :
  forall pd : Pandas,
  (forall (df : DataFrame) (location : string) (resolution : Resolution),
      (filter_location df location = [] <->
       forall r, In r df -> Location r <> location) /\
      (get_heatpump_share pd df location resolution = Raise LocationNotFound <->
       filter_location df location = []) /\
      (get_summary_metrics pd df location = Raise LocationNotFound <->
       filter_location df location = []) /\
      (forall e, get_heatpump_share pd df location resolution = Raise e ->
                 e = LocationNotFound) /\
      (forall e, get_summary_metrics pd df location = Raise e ->
                 e = LocationNotFound) /\
      (forall (A : Type) (compute : DataFrame -> A),
          filter_location df location = [] ->
          with_location_df df location compute = Raise LocationNotFound) /\
      (forall (A : Type) (compute : DataFrame -> A) (a : A),
          with_location_df df location compute = Return a ->
          filter_location df location <> [] /\
          a = compute (filter_location df location))) /\
  (forall (location : string) (resolution : Resolution),
      (exists compute, forall df,
            get_heatpump_share pd df location resolution =
            with_location_df df location compute) /\
      (exists compute, forall df,
            get_summary_metrics pd df location =
            with_location_df df location compute)) /\
  (forall (rows : list RawRow) (location : string),
      filter_location (load rows) location = [] <->
      forall row, In row rows -> strip (raw_Location row) <> location) /\
  (forall (df : DataFrame),
      (forall r, In r df -> Location r <> "unknown-location"%string) ->
      get_heatpump_share pd df "unknown-location" daily = Raise LocationNotFound) /\
  get_heatpump_share pd sample_df "unknown-location" daily
  = Raise LocationNotFound /\
  get_summary_metrics pd sample_df "a" = Raise LocationNotFound /\
  (exists s, get_summary_metrics pd sample_df "A" = Return s).
Proof.
  intros pd.
  split; [|split; [|split; [|split; [|split; [|split]]]]];
    [| | | | reflexivity | reflexivity | eexists; reflexivity].
  - intros df location resolution.
    split; [apply filter_location_empty|].
    rewrite get_heatpump_share_guard, get_summary_metrics_guard.
    repeat split.
    + intros Hr.
      destruct (with_location_df_cases df location
                  (groupby_mean pd (bucket_key resolution))) as [[He _]|[_ Hret]];
        [exact He | congruence].
    + apply with_location_df_raise.
    + intros Hr.
      match type of Hr with with_location_df _ _ ?c = _ =>
        destruct (with_location_df_cases df location c) as [[He _]|[_ Hret]]
      end; [exact He | congruence].
    + apply with_location_df_raise.
    + intros e Hr.
      destruct (with_location_df_cases df location
                  (groupby_mean pd (bucket_key resolution))) as [[_ Hx]|[_ Hx]];
        congruence.
    + intros e Hr.
      match type of Hr with with_location_df _ _ ?c = _ =>
        destruct (with_location_df_cases df location c) as [[_ Hx]|[_ Hx]]
      end; congruence.
    + intros A compute. apply with_location_df_raise.
    + destruct (with_location_df_cases df location compute)
        as [[_ Hx]|[Hne Hx]]; [congruence | exact Hne].
    + destruct (with_location_df_cases df location compute)
        as [[_ Hx]|[Hne Hx]]; congruence.
  - intros location resolution. split; eexists; intros df.
    + apply get_heatpump_share_guard.
    + apply get_summary_metrics_guard.
  - intros rows location. rewrite filter_location_empty. unfold load. split.
    + intros Hall row Hin. apply (Hall (prepare_row row)). now apply in_map.
    + intros Hall r Hin. apply in_map_iff in Hin.
      destruct Hin as (row & <- & Hin). now apply Hall.
  - intros df Hall.
    rewrite get_heatpump_share_guard. apply with_location_df_raise.
    now apply filter_location_empty.
Qed.

(** C3. Whatever the frame, the pairs returned by [get_heatpump_share] have
    strictly increasing bucket keys, hence no key twice; when nothing is
    returned, the location has no record.  The order of the keys is the
    order of time: of two prepared rows, the one with the smaller key has
    the earlier timestamp. *)
Theorem get_heatpump_share_strictly_ascending :
  forall pd : Pandas,
  (forall (df : DataFrame) (location : string) (resolution : Resolution),
      match get_heatpump_share pd df location resolution with
      | Return out =>
          StronglySorted lt_key (map fst out) /\ NoDup (map fst out)
      | Raise e => e = LocationNotFound /\ filter_location df location = []
      end) /\
  (forall (resolution : Resolution) (a b : RawRow),
      lt_key (bucket_key resolution (prepare_row a))
             (bucket_key resolution (prepare_row b)) ->
      timestamp (prepare_row a) < timestamp (prepare_row b)).
Proof.
  intros pd. split; [|exact bucket_key_chronological].
  intros df location resolution.
  destruct (share_cases pd df location resolution) as [[He ->]|[_ ->]].
  - split; [reflexivity | exact He].
  - rewrite groupby_mean_keys.
    pose proof (@groupby_sorted _ _ _ (bucket_key resolution)
                  (filter_location df location)) as Hs.
    split; [exact Hs | now apply strictly_sorted_NoDup].
Qed.

(** C4. The buckets returned for a location partition its records: the
    numbers of records in the returned buckets add up to the number of
    records of the location. *)
Theorem get_heatpump_share_counts_partition :
  forall (pd : Pandas) (df : DataFrame) (location : string)
         (resolution : Resolution),
    match get_heatpump_share pd df location resolution with
    | Return out =>
        bucket_counts resolution (map fst out) (filter_location df location)
        = List.length (filter_location df location)
    | Raise _ => List.length (filter_location df location) = 0%nat
    end.
Proof.
  intros pd df location resolution.
  destruct (share_cases pd df location resolution) as [[He ->]|[_ ->]].
  - now rewrite He.
  - rewrite groupby_mean_keys. unfold bucket_counts, bucket_members.
    rewrite <- (@total_count_members _ _ (bucket_key resolution)).
    + apply groupby_total.
    + intros k g. apply groupby_members.
Qed.

(** ** The report *)

Lemma filter_subseq (A : Type) (f : A -> bool) (l : list A) :
  subseq (filter f l) l.
Proof.
  induction l as [|x l IH]; simpl; [constructor|].
  destruct (f x); [now apply subseq_keep | now apply subseq_skip].
Qed.

Lemma subseq_filter_greatest (A : Type) (f : A -> bool) (s l : list A) :
  subseq s l -> Forall (fun x => f x = true) s -> subseq s (filter f l).
Proof.
  induction 1 as [|x s l Hsub IH|x s l Hsub IH]; intros Hall; simpl.
  - constructor.
  - destruct (f x); [apply subseq_skip|]; now apply IH.
  - inversion Hall as [|? ? Hx Hrest]; subst.
    rewrite Hx. apply subseq_keep. now apply IH.
Qed.

(** C10. [download_report] hands over exactly the rows whose [Location]
    equals the queried string: they are rows of the frame, unchanged, in
    the order of the frame, and every selection of rows of that location
    taken in frame order is contained in them.  For a location without rows
    the handler raises "Location not found" instead. *)
Theorem download_report_rows_in_order :
  forall (df : DataFrame) (location : string),
    match download_report df location with
    | Return rows =>
        rows = filter_location df location /\
        subseq rows df /\
        (forall r, In r rows <-> In r df /\ Location r = location) /\
        (forall s, subseq s df ->
                   Forall (fun r => Location r = location) s ->
                   subseq s rows)
    | Raise e =>
        e = LocationNotFound /\
        forall r, In r df -> Location r <> location
    end.
Proof.
  intros df location. rewrite download_report_guard.
  destruct (with_location_df_cases df location (fun d => d))
    as [[He ->]|[_ ->]].
  - split; [reflexivity | now apply filter_location_empty].
  - split; [reflexivity|]. split; [apply filter_subseq|]. split.
    + intros r. apply filter_location_In.
    + intros s Hsub Hall. apply subseq_filter_greatest; [assumption|].
      eapply Forall_impl; [|exact Hall].
      intros r Hr. now apply String.eqb_eq.
Qed.

(** ** Summary statistics *)

Lemma values_nonempty (l : DataFrame) : l <> [] -> map heatpump_pct l <> [].
Proof. destruct l; simpl; congruence. Qed.

Lemma summary_cases pd df location :
  (filter_location df location = [] /\
   get_summary_metrics pd df location = Raise LocationNotFound) \/
  (filter_location df location <> [] /\
   let values := map heatpump_pct (filter_location df location) in
   get_summary_metrics pd df location =
   Return {| location_ := location;
             average_heatpump_pct := round2 (Series_mean pd values);
             max_heatpump_pct := round2 (series_max values);
             min_heatpump_pct := round2 (series_min values);
             data_points := List.length (filter_location df location) |}).
Proof.
  rewrite get_summary_metrics_guard. apply with_location_df_cases.
Qed.

(** The extreme values of a series bound its values that are not NaN. *)
Lemma series_extremes (l : list float64) (v : float64) :
  In v l -> isnan v = false ->
  fle (series_min l) v = true /\ fle v (series_max l) = true.
Proof.
  intros Hin Hv.
  assert (Hd : In v (dropna l)) by now apply dropna_In.
  assert (Hne : dropna l <> []) by (intros He; rewrite He in Hd; exact Hd).
  destruct (@series_max_spec l Hne) as [_ Hub].
  destruct (@series_min_spec l Hne) as [_ Hlb].
  rewrite Forall_forall in Hub, Hlb. split; [now apply Hlb | now apply Hub].
Qed.

Lemma flt_fle_trans (x y z : float64) :
  flt x y = true -> fle y z = true -> flt x z = true.
Proof.
  rewrite !flt_rank, fle_rank. intros (Hx & _ & H1) (_ & Hz & H2).
  split; [exact Hx|]. split; [exact Hz|].
  destruct H2 as [H2|H2]; [|now rewrite <- H2].
  unfold rank_lt in *. lia.
Qed.

Lemma fle_flt_trans (x y z : float64) :
  fle x y = true -> flt y z = true -> flt x z = true.
Proof.
  rewrite !flt_rank, fle_rank. intros (Hx & _ & H1) (_ & Hz & H2).
  split; [exact Hx|]. split; [exact Hz|].
  destruct H1 as [H1|H1]; [|now rewrite H1].
  unfold rank_lt in *. lia.
Qed.

(** numpy's rounding at work: 2.675 becomes 2.68 and 0.025 becomes 0.02,
    while the mean of three values 0.025, which is 0.025000000000000005
    when they are added from left to right, becomes 0.03. *)
Lemma round2_examples :
  round2 (decimal 2675 3) = decimal 268 2 /\
  round2 (decimal 25 3) = decimal 2 2 /\
  nanmean [decimal 25 3; decimal 25 3; decimal 25 3]
  = decimal 25000000000000005 18 /\
  round2 (nanmean [decimal 25 3; decimal 25 3; decimal 25 3]) = decimal 3 2 /\
  round2 (of_Z (10 ^ 308)) = S754_infinity false /\
  round2 (of_Z 30) = of_Z 30.
Proof. repeat split; vm_compute; reflexivity. Qed.



(** The reported statistics are not the statistics rounded to two decimal
    places: for a single record with the value 2.675 the maximum is that
    value, whose two-decimal rounding is 2.67 (the binary64 number lies
    below 2.675), and the summary reports 2.68, whatever the library's
    mean.  The rounded mean can leave the range of the values: three
    records with the value 0.025 are reported, with the reference
    summation, with average 0.03 and maximum 0.02. *)
Lemma reported_statistics_are_not_decimal_roundings :
  let df := load half_cent_rows in
  (forall pd : Pandas,
      exists s, get_summary_metrics pd df "A" = Return s /\
                max_heatpump_pct s = decimal 268 2) /\
  series_max (map heatpump_pct (filter_location df "A")) = decimal 2675 3 /\
  rounded_2dp (decimal 2675 3) (decimal 267 2) /\
  ~ rounded_2dp (decimal 2675 3) (decimal 268 2) /\
  (exists s, get_summary_metrics reference_pandas df "B" = Return s /\
             average_heatpump_pct s = decimal 3 2 /\
             max_heatpump_pct s = decimal 2 2).
Proof.
  intros df. split; [|split; [|split; [|split]]].
  - intros pd. eexists. split; [reflexivity|]. vm_compute. reflexivity.
  - vm_compute. reflexivity.
  - eexists. exists 267. split; [reflexivity|].
    split; [|vm_compute; reflexivity].
    vm_compute. discriminate.
  - intros (q & n & Hq & Hn & Hr).
    vm_compute in Hq. injection Hq as <-.
    apply Qabs_Qle_condition in Hn. destruct Hn as [Hlo Hhi].
    unfold Qle, Qminus, Qplus, Qmult, Qopp, inject_Z in Hlo, Hhi.
    cbn [Qnum Qden] in Hlo, Hhi.
    assert (n = 267) by lia. subst n.
    vm_compute in Hr. discriminate.
  - eexists. split; [reflexivity|]. split; vm_compute; reflexivity.
Qed.



(** ** The location catalogue *)

Section DropDuplicates.
Context {K : Type} `{Ord K}.

Lemma drop_duplicates_In (l : list K) (x : K) :
  In x (drop_duplicates l) <-> In x l.
Proof.
  induction l as [|y l IH]; simpl; [tauto|].
  rewrite filter_In, IH, negb_true_iff, eqb_key_false.
  destruct (cmp y x) eqn:E.
  - apply cmp_eq_iff in E. tauto.
  - assert (y <> x) by (intros ->; rewrite cmp_refl in E; discriminate).
    tauto.
  - assert (y <> x) by (intros ->; rewrite cmp_refl in E; discriminate).
    tauto.
Qed.

Lemma NoDup_filter (f : K -> bool) (l : list K) :
  NoDup l -> NoDup (filter f l).
Proof.
  induction 1 as [|x l Hx Hnd IH]; simpl; [constructor|].
  destruct (f x); [|assumption].
  constructor; [|assumption].
  rewrite filter_In. tauto.
Qed.

Lemma drop_duplicates_NoDup (l : list K) : NoDup (drop_duplicates l).
Proof.
  induction l as [|y l IH]; simpl; constructor.
  - rewrite filter_In, negb_true_iff, eqb_key_false. tauto.
  - now apply NoDup_filter.
Qed.

Lemma filter_all (f : K -> bool) (l : list K) :
  (forall x, In x l -> f x = true) -> filter f l = l.
Proof.
  induction l as [|y l IH]; simpl; intros Hall; [reflexivity|].
  rewrite (Hall y) by now left.
  f_equal. apply IH. intros x Hx. apply Hall. now right.
Qed.
End DropDuplicates.

Lemma insert_by_Location_perm p l :
  Permutation (insert_by_Location p l) (p :: l).
Proof.
  induction l as [|q l IH]; simpl; [reflexivity|].
  destruct (leb_key (fst p) (fst q)); [reflexivity|].
  rewrite IH. apply perm_swap.
Qed.

Lemma sort_values_Location_perm l : Permutation (sort_values_Location l) l.
Proof.
  induction l as [|p l IH]; simpl; [reflexivity|].
  rewrite insert_by_Location_perm. now constructor.
Qed.

Lemma insert_by_Location_sorted p l :
  StronglySorted Location_le l ->
  StronglySorted Location_le (insert_by_Location p l).
Proof.
  induction l as [|q l IH]; simpl; intros Hs.
  - repeat constructor.
  - inversion Hs as [|? ? Hs' Hall]; subst.
    destruct (leb_key (fst p) (fst q)) eqn:E.
    + apply leb_key_le in E.
      constructor; [assumption|].
      constructor; [exact E|].
      eapply Forall_impl; [|exact Hall].
      intros x Hx. exact (le_key_trans E Hx).
    + apply leb_key_false_le in E.
      constructor; [now apply IH|].
      apply Forall_forall. intros x Hx.
      apply (Permutation_in _ (insert_by_Location_perm p l)) in Hx.
      destruct Hx as [<-|Hx]; [exact E|].
      rewrite Forall_forall in Hall. now apply Hall.
Qed.

Lemma sort_values_Location_sorted l :
  StronglySorted Location_le (sort_values_Location l).
Proof.
  induction l as [|p l IH]; simpl; [constructor|].
  now apply insert_by_Location_sorted.
Qed.

Lemma serve_state pd py df reqs : snd (serve pd py df reqs) = df.
Proof.
  revert df. induction reqs as [|req reqs IH]; intros df; simpl;
    [reflexivity|].
  destruct (handle pd py df req) as [reply df'] eqn:Eh.
  assert (df' = df) by (destruct req; simpl in Eh; congruence). subst df'.
  specialize (IH df). destruct (serve pd py df reqs) as [replies df''].
  exact IH.
Qed.

(** The catalogue for a given selection of rows. *)
Lemma list_locations_value df Town_ locs :
  list_locations df Town_ = Some locs ->
  exists keep : Row -> bool,
    (forall r, keep r = true <-> town_selected Town_ r) /\
    locs = sort_values_Location
             (drop_duplicates
                (map (fun r => (Location r, Town r)) (filter keep df))).
Proof.
  unfold list_locations, town_selected, str_contains.
  destruct (truthy Town_) as [pat|].
  - destruct (re_compile pat) as [atoms|]; [|discriminate].
    intros [= <-]. exists (fun r => re_search atoms (Town r)).
    split; [|reflexivity].
    intros r; simpl. split; [now intros -> | now intros [= ->]].
  - intros [= <-]. exists (fun _ => true).
    split; [tauto|].
    now rewrite filter_all by reflexivity.
Qed.

Lemma supported_compile pat :
  supported pat = true <-> exists atoms, re_compile pat = Some atoms.
Proof.
  induction pat as [|c pat IH]; simpl.
  - split; [now eexists | reflexivity].
  - rewrite andb_true_iff, IH. split.
    + intros [Hc [atoms ->]].
      destruct (is_dot c); [now eexists|].
      simpl in Hc. apply negb_true_iff in Hc. rewrite Hc. now eexists.
    + destruct (re_compile pat) as [atoms|]; [|now intros [? [=]]].
      intros Hex. split; [|now eexists].
      destruct (is_dot c); [reflexivity|]. simpl.
      destruct (is_special c); [|reflexivity].
      destruct Hex as [? [=]].
Qed.

Lemma catalogue_In (pairs : list (string * string)) (p : string * string) :
  In p (sort_values_Location (drop_duplicates pairs)) <-> In p pairs.
Proof.
  rewrite <- (drop_duplicates_In pairs p). split; intros Hin.
  - exact (Permutation_in _ (sort_values_Location_perm _) Hin).
  - exact (Permutation_in _
             (Permutation_sym (sort_values_Location_perm _)) Hin).
Qed.

Lemma catalogue_NoDup (pairs : list (string * string)) :
  NoDup (sort_values_Location (drop_duplicates pairs)).
Proof.
  eapply Permutation_NoDup.
  - symmetry. apply sort_values_Location_perm.
  - apply drop_duplicates_NoDup.
Qed.

(** Under any engine, an answer of the handler is the catalogue of the
    rows that the filter keeps. *)
Lemma generic_list_locations_value py df Town_ locs :
  Generic.list_locations py df Town_ = Answer locs ->
  exists keep : Row -> bool,
    (forall r, keep r = true <-> town_kept py Town_ r) /\
    locs = sort_values_Location (drop_duplicates (pairs_of (filter keep df))).
Proof.
  unfold Generic.list_locations, town_kept.
  destruct (truthy Town_) as [pat|].
  - destruct (compile py pat) as [p|] eqn:E; [|discriminate].
    intros [= <-]. exists (fun r => search py p (Town r)).
    split; [|reflexivity].
    intros r. split.
    + intros Hs. now exists p.
    + intros (p' & [= <-] & Hs). exact Hs.
  - intros [= <-]. exists (fun _ => true).
    split; [tauto|].
    now rewrite filter_all by reflexivity.
Qed.

(** There is no answer exactly when the filter does not compile. *)
Lemma generic_list_locations_error py df Town_ :
  Generic.list_locations py df Town_ = re_error <->
  exists pat, Town_ = Some pat /\ pat <> EmptyString /\
              compile py pat = None.
Proof.
  unfold Generic.list_locations.
  destruct Town_ as [[|c pat]|]; simpl truthy; cbv beta iota zeta.
  - split; [discriminate|]. intros (pat & [= <-] & Hne & _). congruence.
  - destruct (compile py (String c pat)) eqn:E; cbv beta iota zeta.
    + split; [discriminate|]. intros (pat' & [= <-] & _ & Hc). congruence.
    + split; [|reflexivity]. intros _. exists (String c pat).
      repeat split; [discriminate | exact E].
  - split; [discriminate|]. intros (pat & [=] & _).
Qed.

(** On the fragment, [list_locations] is the handler under any engine that
    knows the fragment. *)
Lemma list_locations_generic py df Town_ locs :
  knows_fragment py ->
  list_locations df Town_ = Some locs ->
  Generic.list_locations py df Town_ = Answer locs.
Proof.
  intros Hpy. unfold list_locations, Generic.list_locations.
  destruct (truthy Town_) as [pat|]; [|now intros [= <-]].
  destruct (re_compile pat) as [atoms|] eqn:E; [|discriminate].
  destruct (Hpy pat atoms E) as (p & -> & Hs).
  intros [= <-]. do 4 f_equal. apply filter_ext. intros r. apply Hs.
Qed.


(** ** The town filter *)

Lemma is_dot_special c : is_dot c = true -> is_special c = true.
Proof.
  unfold is_dot, is_special, special_chars. simpl. now intros ->.
Qed.

Lemma lower_idem c : lower (lower c) = lower c.
Proof. destruct c as [[] [] [] [] [] [] [] []]; reflexivity. Qed.

Lemma lower_upper c : lower (upper c) = lower c.
Proof. destruct c as [[] [] [] [] [] [] [] []]; reflexivity. Qed.

Lemma is_special_lower c : is_special (lower c) = is_special c.
Proof. destruct c as [[] [] [] [] [] [] [] []]; reflexivity. Qed.

Lemma is_special_upper c : is_special (upper c) = is_special c.
Proof. destruct c as [[] [] [] [] [] [] [] []]; reflexivity. Qed.

Lemma plain_map_string (f : ascii -> ascii) pat :
  (forall c, is_special (f c) = is_special c) ->
  plain (map_string f pat) = plain pat.
Proof.
  intros Hf. induction pat as [|c pat IH]; simpl; [reflexivity|].
  now rewrite Hf, IH.
Qed.

(** A filter without special characters compiles to its own characters. *)
Lemma plain_re_compile pat :
  plain pat = true ->
  re_compile pat = Some (map Lit (list_ascii_of_string pat)).
Proof.
  induction pat as [|c pat IH]; simpl; intros Hp; [reflexivity|].
  apply andb_true_iff in Hp. destruct Hp as [Hc Hp].
  rewrite (IH Hp). apply negb_true_iff in Hc. rewrite Hc.
  destruct (is_dot c) eqn:Hd; [|reflexivity].
  apply is_dot_special in Hd. congruence.
Qed.

Lemma match_here_literal pat town :
  match_here (map Lit (list_ascii_of_string pat)) town = prefix_ci pat town.
Proof.
  revert town. induction pat as [|c pat IH]; intros town; simpl.
  - reflexivity.
  - destruct town as [|b town]; [reflexivity|]. now rewrite IH.
Qed.

Lemma re_search_literal pat town :
  re_search (map Lit (list_ascii_of_string pat)) town = substring_ci pat town.
Proof.
  induction town as [|b town IH]; simpl.
  - now rewrite match_here_literal.
  - now rewrite match_here_literal, IH.
Qed.

(** On a filter without special characters the search is the
    case-insensitive substring test. *)
Lemma str_contains_plain pat town :
  plain pat = true -> str_contains pat town = Some (substring_ci pat town).
Proof.
  intros Hp. unfold str_contains.
  rewrite (plain_re_compile _ Hp). simpl. now rewrite re_search_literal.
Qed.

Lemma prefix_ci_fold (f : ascii -> ascii) pat town :
  (forall c, lower (f c) = lower c) ->
  prefix_ci (map_string f pat) town = prefix_ci pat town.
Proof.
  intros Hf. revert town.
  induction pat as [|c pat IH]; intros town; simpl; [reflexivity|].
  destruct town as [|b town]; [reflexivity|]. now rewrite Hf, IH.
Qed.

Lemma substring_ci_fold (f : ascii -> ascii) pat town :
  (forall c, lower (f c) = lower c) ->
  substring_ci (map_string f pat) town = substring_ci pat town.
Proof.
  intros Hf. induction town as [|b town IH]; simpl.
  - now rewrite prefix_ci_fold.
  - now rewrite prefix_ci_fold, IH.
Qed.

(** The lower-cased and the upper-cased form of a filter without special
    characters select the same towns. *)
Lemma str_contains_case_forms pat town :
  plain pat = true ->
  str_contains (map_string lower pat) town =
  str_contains (map_string upper pat) town.
Proof.
  intros Hp.
  rewrite !str_contains_plain.
  - now rewrite !substring_ci_fold by (apply lower_idem || apply lower_upper).
  - now rewrite plain_map_string by apply is_special_upper.
  - now rewrite plain_map_string by apply is_special_lower.
Qed.

(** C8. The town filter is searched as a regular expression, not as a
    substring: on the sample dataset the filter "." keeps both towns and
    the filter "o.lo" keeps "Oslo", although no town contains either string
    (a substring filter would keep nothing); the lower- and upper-cased
    forms of a filter without special characters do agree, and an absent
    or empty filter keeps every row. *)
Theorem town_filter_searches_a_regular_expression :
  list_locations sample_df (Some ".")%string
  = Some [("A", "Oslo"); ("B", "Bergen")]%string /\
  list_locations sample_df (Some "o.lo")%string
  = Some [("A", "Oslo")]%string /\
  Forall (fun r => substring_ci "." (Town r) = false
                   /\ substring_ci "o.lo" (Town r) = false) sample_df /\
  sort_values_Location
    (drop_duplicates
       (map (fun r => (Location r, Town r))
            (filter (fun r => substring_ci "." (Town r)) sample_df))) = [] /\
  list_locations sample_df (Some "town")%string
  = list_locations sample_df (Some "TOWN")%string /\
  list_locations sample_df None = list_locations sample_df (Some ""%string).
Proof.
  split; [reflexivity|]. split; [reflexivity|].
  split; [repeat constructor|].
  split; [reflexivity|]. split; reflexivity.
Qed.

(** ** The month bucket *)

(** C6. The month bucket of a row is the (year, month) of its timestamp
    after conversion to UTC and removal of the zone; it is the year and
    month of the row's UTC date, and equals the civil year and month of
    any valid UTC rendering of the same instant.  A record at
    2023-01-31T23:30:00+01:00 falls into January 2023 (UTC date
    2023-01-31), one at 2023-02-01T00:10:00Z into February 2023, and one at
    2023-02-01T00:30:00+01:00, whose local month is February, into January
    2023. *)
Theorem month_bucket_of_utc_instant :
  (forall row : RawRow,
      let r := prepare_row row in
      timestamp r = to_datetime_utc (raw_timestamp row) /\
      month r = to_period_M (tz_localize_None (timestamp r)) /\
      month r = mkPeriod (d_year (date r)) (d_month (date r))) /\
  (forall (row : RawRow) (u : RawTimestamp),
      valid_raw u -> raw_utcoffset u = 0 ->
      to_datetime_utc (raw_timestamp row) = to_datetime_utc u ->
      month (prepare_row row) = mkPeriod (raw_year u) (raw_month u)) /\
  (forall (loc town : string) (e p : float64),
      let r := prepare_row
                 (mkRawRow (mkRaw 2023 1 31 23 30 0 0 60) loc town e p) in
      month r = mkPeriod 2023 1 /\ date r = mkDate 2023 1 31 /\ hour r = 22) /\
  (forall (loc town : string) (e p : float64),
      let r := prepare_row
                 (mkRawRow (mkRaw 2023 2 1 0 10 0 0 0) loc town e p) in
      month r = mkPeriod 2023 2 /\ date r = mkDate 2023 2 1 /\ hour r = 0) /\
  (forall (loc town : string) (e p : float64),
      let r := prepare_row
                 (mkRawRow (mkRaw 2023 2 1 0 30 0 0 60) loc town e p) in
      month r = mkPeriod 2023 1 /\ date r = mkDate 2023 1 31 /\ hour r = 23).
Proof.
  split; [|split; [|split; [|split]]].
  - intros row r. repeat split.
  - intros row u Hv Hoff Heq.
    destruct (utc_fields Hv Hoff) as (_ & _ & Hp).
    cbv zeta in Hp. rewrite <- Heq in Hp. exact Hp.
  - intros loc town e p r. repeat split.
  - intros loc town e p r. repeat split.
  - intros loc town e p r. repeat split.
Qed.

(** * Further properties of the code *)

(** ** Whitespace normalisation *)

Lemma lstrip_spec (s : string) :
  exists pre,
    s = (pre ++ lstrip s)%string /\ all_space pre = true /\
    starts_with_space (lstrip s) = false.
Proof.
  induction s as [|c s IH]; simpl.
  - exists EmptyString. auto.
  - destruct (is_space c) eqn:E.
    + destruct IH as (pre & Hs & Hpre & Hst).
      exists (String c pre). simpl. rewrite E, Hpre, <- Hs. auto.
    + exists EmptyString. simpl. auto.
Qed.

Lemma rstrip_spec (s : string) :
  exists post,
    s = (rstrip s ++ post)%string /\ all_space post = true /\
    ends_with_space (rstrip s) = false.
Proof.
  induction s as [|c s IH]; simpl.
  - exists EmptyString. auto.
  - destruct IH as (post & Hs & Hpost & He).
    destruct (rstrip s) as [|a t] eqn:Er.
    + simpl in Hs. subst s.
      destruct (is_space c) eqn:E.
      * exists (String c post). simpl. rewrite E, Hpost. auto.
      * exists post. simpl. rewrite E. auto.
    + exists post. simpl in Hs.
      split; [simpl; now rewrite <- Hs | split; [exact Hpost | exact He]].
Qed.

Lemma rstrip_keeps_start (s : string) :
  starts_with_space s = false -> starts_with_space (rstrip s) = false.
Proof.
  destruct s as [|c s]; simpl; [reflexivity|]. intros Hc.
  destruct (rstrip s); [rewrite Hc|]; simpl; auto.
Qed.

Lemma lstrip_fixed (s : string) :
  starts_with_space s = false -> lstrip s = s.
Proof. destruct s as [|c s]; simpl; [reflexivity | now intros ->]. Qed.

Lemma rstrip_fixed (s : string) :
  ends_with_space s = false -> rstrip s = s.
Proof.
  induction s as [|c s IH]; simpl; [reflexivity|].
  destruct s as [|a t].
  - simpl. now intros ->.
  - intros He. rewrite (IH He). reflexivity.
Qed.

Lemma strip_clean (s : string) :
  starts_with_space (strip s) = false /\ ends_with_space (strip s) = false.
Proof.
  unfold strip.
  destruct (lstrip_spec s) as (pre & _ & _ & Hst).
  destruct (rstrip_spec (lstrip s)) as (post & _ & _ & He).
  split; [now apply rstrip_keeps_start | exact He].
Qed.

Lemma strip_fixed (s : string) :
  starts_with_space s = false -> ends_with_space s = false -> strip s = s.
Proof.
  intros Hst He. unfold strip. rewrite (lstrip_fixed _ Hst).
  now apply rstrip_fixed.
Qed.

Lemma append_assoc (a b c : string) :
  ((a ++ b) ++ c = a ++ (b ++ c))%string.
Proof. induction a as [|x a IH]; simpl; [reflexivity | now rewrite IH]. Qed.

Lemma ascii_only_app (a b : string) :
  ascii_only (a ++ b) = ascii_only a && ascii_only b.
Proof.
  induction a as [|c a IH]; simpl; [reflexivity|].
  now rewrite IH, andb_assoc.
Qed.

Lemma strip_split (s : string) :
  exists pre post,
    s = (pre ++ strip s ++ post)%string /\
    all_space pre = true /\ all_space post = true.
Proof.
  unfold strip.
  destruct (lstrip_spec s) as (pre & Hs & Hpre & _).
  destruct (rstrip_spec (lstrip s)) as (post & Hl & Hpost & _).
  exists pre, post. rewrite <- Hl. auto.
Qed.

Lemma strip_ascii_only (s : string) :
  ascii_only s = true -> ascii_only (strip s) = true.
Proof.
  destruct (strip_split s) as (pre & post & Hs & _). intros Ha.
  rewrite Hs, !ascii_only_app, !andb_true_iff in Ha. tauto.
Qed.



Lemma stripped_query_needed (rows : list RawRow) (location : string) :
  starts_with_space location = true \/ ends_with_space location = true ->
  filter_location (load rows) location = [].
Proof.
  intros Hq. apply filter_location_empty. intros r Hin Heq.
  unfold load in Hin. apply in_map_iff in Hin.
  destruct Hin as (row & <- & _). simpl in Heq.
  destruct (strip_clean (raw_Location row)) as [L1 L2].
  rewrite Heq in L1, L2. destruct Hq; congruence.
Qed.

(** X2. The handlers compare the query as it is given, while the stored
    locations are stripped: a query that starts or ends with whitespace
    finds nothing, and every location handler answers it with "Location
    not found". *)
Theorem padded_query_is_not_found :
  forall (pd : Pandas) (rows : list RawRow) (location : string)
         (resolution : Resolution),
    starts_with_space location = true \/ ends_with_space location = true ->
    get_heatpump_share pd (load rows) location resolution
    = Raise LocationNotFound /\
    get_summary_metrics pd (load rows) location = Raise LocationNotFound /\
    get_heatpump_plot (load rows) location = Raise LocationNotFound /\
    download_report (load rows) location = Raise LocationNotFound.
Proof.
  intros pd rows location resolution Hq.
  pose proof (stripped_query_needed rows location Hq) as He.
  rewrite get_heatpump_share_guard, get_summary_metrics_guard,
    download_report_guard.
  rewrite !(with_location_df_raise _ _ _ He).
  unfold get_heatpump_plot. rewrite He. auto.
Qed.

Lemma padded_query_is_not_found_witness :
  get_summary_metrics reference_pandas (load sample_rows) "A "
  = Raise LocationNotFound.
Proof.
  apply (@padded_query_is_not_found reference_pandas sample_rows "A " daily).
  right. reflexivity.
Defined.

(** ** Derived time columns *)

(** The day of a civil date exists in its month. *)
Lemma civil_from_days_day_in_month z :
  let c := civil_from_days z in
  1 <= d_month c <= 12 /\
  1 <= d_day c <= days_in_month (d_year c) (d_month c).
Proof.
  destruct (civil_from_days_stages z)
    as (era & doe & yoe & doy & mp & Hz & Hdoe & Hyoe & Hdoy & Hmp
        & Ry & Rd & Rm & ->).
  cbn [d_year d_month d_day].
  assert (Hleap : doy = 365 ->
                  yoe mod 4 = 3 /\ (yoe mod 100 <> 99 \/ yoe = 399)).
  { clear Hz Hmp Rm. subst doy yoe. by_division. }
  assert (Hd : 1 <= doy - (153 * mp + 2) / 5 + 1 /\
               (mp = 11 -> doy - (153 * mp + 2) / 5 + 1 <= 29) /\
               (mp = 11 -> doy - (153 * mp + 2) / 5 + 1 = 29 -> doy = 365) /\
               (mp = 1 \/ mp = 3 \/ mp = 6 \/ mp = 8 ->
                doy - (153 * mp + 2) / 5 + 1 <= 30) /\
               doy - (153 * mp + 2) / 5 + 1 <= 31).
  { clear Hleap Hz Hdoy Hyoe. subst mp. by_division. }
  set (d := doy - (153 * mp + 2) / 5 + 1) in *. clearbody d.
  clear Hmp Hdoy Hyoe Hz Hdoe.
  assert (Hc : mp = 0 \/ mp = 1 \/ mp = 2 \/ mp = 3 \/ mp = 4 \/ mp = 5 \/
               mp = 6 \/ mp = 7 \/ mp = 8 \/ mp = 9 \/ mp = 10 \/ mp = 11)
    by lia.
  unfold days_in_month.
  repeat (destruct Hc as [Hc|Hc]); subst mp; cbn -[is_leap Z.mul];
    try lia.
  - split; [lia|]. split; [lia|].
    destruct (is_leap (yoe + era * 400 + 1)) eqn:El; [lia|].
    assert (d <> 29); [|lia].
    intros H29. destruct Hd as (_ & _ & H365 & _).
    specialize (H365 eq_refl H29). destruct (Hleap H365) as [H4 H100].
    unfold is_leap in El.
    apply orb_false_iff in El. destruct El as [El1 El2].
    apply Z.eqb_neq in El2.
    apply andb_false_iff in El1. destruct El1 as [El1|El1].
    + apply Z.eqb_neq in El1. by_division.
    + apply negb_false_iff, Z.eqb_eq in El1. by_division.
Qed.

Lemma clock_fields (ts : Timestamp) :
  0 <= dt_hour ts < 24 /\
  t_hour (dt_time ts) = dt_hour ts /\
  0 <= t_minute (dt_time ts) < 60 /\
  0 <= t_second (dt_time ts) < 60 /\
  0 <= t_microsecond (dt_time ts) < 1000000.
Proof.
  unfold dt_hour, dt_time; cbn [t_hour t_minute t_second t_microsecond].
  repeat split; try apply Z.mod_pos_bound; lia.
Qed.

(** X3. Whatever the raw timestamp, the derived columns of a prepared row
    are a wall clock and a calendar date: the hour lies in 0..23 and is the
    hour of the [time] column, minute, second and microsecond are in range,
    the month lies in 1..12 and the day exists in that month of that year
    (29 February only in leap years). *)
Theorem derived_time_columns_valid :
  forall row : RawRow,
    let r := prepare_row row in
    0 <= hour r < 24 /\
    t_hour (time r) = hour r /\
    0 <= t_minute (time r) < 60 /\
    0 <= t_second (time r) < 60 /\
    0 <= t_microsecond (time r) < 1000000 /\
    1 <= d_month (date r) <= 12 /\
    1 <= d_day (date r) <= days_in_month (d_year (date r)) (d_month (date r)) /\
    1 <= p_month (month r) <= 12.
Proof.
  intros row r. subst r. cbn [prepare_row hour time date month].
  set (ts := to_datetime_utc (raw_timestamp row)).
  destruct (clock_fields ts) as (H1 & H2 & H3 & H4 & H5).
  destruct (civil_from_days_day_in_month (ts / NS_PER_DAY)) as [H6 H7].
  unfold dt_date, to_period_M, tz_localize_None.
  cbn [wall_ns p_month]. cbv zeta in H6, H7. auto 10.
Qed.

(** X4. The [date] and [time] columns together give the timestamp back, to
    the microsecond: the day number of the date, then hours, minutes,
    seconds and microseconds of the time. *)
Theorem timestamp_from_date_and_time :
  forall row : RawRow,
    let r := prepare_row row in
    timestamp r / 1000 =
    (days_from_civil (d_year (date r)) (d_month (date r)) (d_day (date r))
     * 86400
     + t_hour (time r) * 3600 + t_minute (time r) * 60 + t_second (time r))
    * 1000000
    + t_microsecond (time r).
Proof.
  intros row r. subst r. cbn [prepare_row timestamp time date].
  set (ts := to_datetime_utc (raw_timestamp row)). clearbody ts.
  unfold dt_date.
  pose proof (days_from_civil_from_days (ts / NS_PER_DAY)) as Hd.
  cbv zeta in Hd. rewrite Hd.
  unfold dt_time; cbn [t_hour t_minute t_second t_microsecond].
  unfold NS_PER_DAY, NS_PER_HOUR, NS_PER_MINUTE, NS_PER_SECOND.
  by_division.
Qed.

Lemma utc_time (u : RawTimestamp) :
  valid_raw u -> raw_utcoffset u = 0 ->
  dt_time (to_datetime_utc u)
  = mkTime (raw_hour u) (raw_minute u) (raw_second u)
           (raw_nanosecond u / 1000).
Proof.
  intros (Hm & Hd & Hh & Hmi & Hs & Hn) Hoff.
  unfold dt_time, to_datetime_utc. rewrite Hoff.
  generalize (days_from_civil (raw_year u) (raw_month u) (raw_day u)).
  intros n.
  unfold NS_PER_DAY, NS_PER_HOUR, NS_PER_MINUTE, NS_PER_SECOND in *.
  f_equal; by_division.
Qed.

(** X5. A row whose timestamp denotes the same instant as a valid UTC
    timestamp [u] carries the civil fields of [u]: its date, hour and time
    columns are the date, the hour and the clock of [u] (nanoseconds cut to
    microseconds), whatever offset the row's own timestamp was written
    with. *)
Theorem columns_of_utc_rendering :
  forall (row : RawRow) (u : RawTimestamp),
    valid_raw u -> raw_utcoffset u = 0 ->
    to_datetime_utc (raw_timestamp row) = to_datetime_utc u ->
    let r := prepare_row row in
    date r = mkDate (raw_year u) (raw_month u) (raw_day u) /\
    hour r = raw_hour u /\
    time r = mkTime (raw_hour u) (raw_minute u) (raw_second u)
                    (raw_nanosecond u / 1000).
Proof.
  intros row u Hv Hoff Heq r. subst r. cbn [prepare_row date hour time].
  rewrite Heq.
  destruct (utc_fields Hv Hoff) as (Hd & Hh & _).
  repeat split; [exact Hd | exact Hh | now apply utc_time].
Qed.

Lemma columns_of_utc_rendering_witness :
  let r := prepare_row
             (mkRawRow (mkRaw 2023 1 31 23 30 0 0 60) "A" "Oslo"
                       (of_Z 3) (of_Z 30)) in
  date r = mkDate 2023 1 31 /\ hour r = 22 /\ time r = mkTime 22 30 0 0.
Proof.
  apply (@columns_of_utc_rendering
           (mkRawRow (mkRaw 2023 1 31 23 30 0 0 60) "A" "Oslo"
                       (of_Z 3) (of_Z 30))
           (mkRaw 2023 1 31 22 30 0 0 0)).
  - repeat split; vm_compute; (reflexivity || (intro; discriminate)).
  - reflexivity.
  - reflexivity.
Defined.

(** ** Buckets at the three resolutions *)

Section GroupCounts.
Context {K : Type} `{Ord K} {A : Type}.
Implicit Types (gs : list (K * list A)) (l : list A).

(** The groups, read off the frame by key. *)
Lemma groupby_as_map (key : A -> K) l :
  groupby key l =
  map (fun k => (k, filter (fun a => eqb_key (key a) k) l))
      (group_keys (groupby key l)).
Proof.
  unfold group_keys. rewrite map_map.
  rewrite <- (map_id (groupby key l)) at 1.
  apply map_ext_in. intros [k g] Hin. simpl. f_equal.
  now apply groupby_members.
Qed.

Lemma groups_at_most_rows gs :
  Forall (fun kg => snd kg <> []) gs ->
  (List.length gs <= total_count gs)%nat.
Proof.
  induction 1 as [|[k g] gs Hg _ IH]; simpl; [lia|].
  destruct g; simpl in *; [congruence | lia].
Qed.
End GroupCounts.

Lemma share_keys_of pd df location resolution out :
  get_heatpump_share pd df location resolution = Return out ->
  map fst out =
  group_keys (groupby (bucket_key resolution) (filter_location df location)).
Proof.
  intros Hout.
  destruct (share_cases pd df location resolution) as [[_ Hr]|[_ Hr]];
    [congruence|].
  rewrite Hr in Hout. injection Hout as <-. apply groupby_mean_keys.
Qed.

Lemma coarser_keys_fewer (resolution resolution' : Resolution)
    (l : DataFrame) (P : key_type resolution -> key_type resolution') :
  (forall r, In r l ->
             bucket_key resolution' r = P (bucket_key resolution r)) ->
  (List.length (group_keys (groupby (bucket_key resolution') l))
   <= List.length (group_keys (groupby (bucket_key resolution) l)))%nat.
Proof.
  intros HP.
  rewrite <- (length_map P
                (group_keys (groupby (bucket_key resolution) l))).
  apply NoDup_incl_length.
  - apply strictly_sorted_NoDup. apply groupby_sorted.
  - intros x Hx.
    apply (proj1 (groupby_keys (bucket_key resolution') l x)) in Hx.
    apply in_map_iff in Hx. destruct Hx as (r & <- & Hin).
    rewrite (HP r Hin). apply in_map.
    apply (proj2 (groupby_keys (bucket_key resolution) l _)).
    now apply in_map.
Qed.

(** X11. A coarser resolution never gives more buckets: for a loaded
    frame the monthly series is at most as long as the daily one, the daily
    one at most as long as the hourly one, and the hourly one has at most
    one bucket per record of the location. *)
Theorem coarser_resolution_fewer_buckets :
  forall (pd : Pandas) (rows : list RawRow) (location : string)
         (oh : list (key_type hourly * float64))
         (od : list (key_type daily * float64))
         (om : list (key_type monthly * float64)),
    get_heatpump_share pd (load rows) location hourly = Return oh ->
    get_heatpump_share pd (load rows) location daily = Return od ->
    get_heatpump_share pd (load rows) location monthly = Return om ->
    (List.length om <= List.length od)%nat /\
    (List.length od <= List.length oh)%nat /\
    (List.length oh
     <= List.length (filter_location (load rows) location))%nat.
Proof.
  intros pd rows location oh od om Hh Hd Hm.
  apply share_keys_of in Hh, Hd, Hm.
  rewrite <- (length_map fst om), <- (length_map fst od),
    <- (length_map fst oh), Hh, Hd, Hm.
  set (l := filter_location (load rows) location).
  split; [|split].
  - apply (@coarser_keys_fewer daily monthly l
             (fun d => mkPeriod (d_year d) (d_month d))).
    intros r Hin. apply filter_location_In in Hin. destruct Hin as [Hin _].
    unfold load in Hin. apply in_map_iff in Hin.
    destruct Hin as (row & <- & _). reflexivity.
  - apply (@coarser_keys_fewer hourly daily l fst).
    intros r _. reflexivity.
  - unfold group_keys. rewrite length_map.
    rewrite <- (groupby_total (bucket_key hourly) l).
    apply groups_at_most_rows. apply groupby_nonempty.
Qed.

Lemma coarser_resolution_fewer_buckets_witness :
  exists oh od om,
    get_heatpump_share reference_pandas (load sample_rows) "A" hourly
    = Return oh /\
    get_heatpump_share reference_pandas (load sample_rows) "A" daily
    = Return od /\
    get_heatpump_share reference_pandas (load sample_rows) "A" monthly
    = Return om /\
    (List.length od <= List.length oh)%nat /\
    (List.length om <= List.length od)%nat.
Proof.
  destruct (get_heatpump_share reference_pandas (load sample_rows) "A" hourly)
    as [oh|e] eqn:Eh; [|vm_compute in Eh; discriminate].
  destruct (get_heatpump_share reference_pandas (load sample_rows) "A" daily)
    as [od|e] eqn:Ed; [|vm_compute in Ed; discriminate].
  destruct (get_heatpump_share reference_pandas (load sample_rows) "A" monthly)
    as [om|e] eqn:Em; [|vm_compute in Em; discriminate].
  exists oh, od, om.
  destruct (@coarser_resolution_fewer_buckets
              reference_pandas sample_rows "A" oh od om Eh Ed Em)
    as (H1 & H2 & _).
  repeat split; assumption.
Defined.

(** ** The catalogue and the other endpoints *)

Lemma list_locations_unfiltered df :
  list_locations df None
  = Some (sort_values_Location (drop_duplicates (pairs_of df))).
Proof. reflexivity. Qed.

Lemma location_has_rows df location :
  filter_location df location <> [] <->
  exists r, In r df /\ Location r = location.
Proof.
  split.
  - intros Hne. destruct (filter_location df location) as [|r l] eqn:E;
      [congruence|].
    exists r. apply filter_location_In. rewrite E. now left.
  - intros (r & Hin & Hloc) He.
    assert (Hr : In r (filter_location df location))
      by now apply filter_location_In.
    rewrite He in Hr. exact Hr.
Qed.

Lemma with_location_df_returns (A : Type) df location
    (compute : DataFrame -> A) :
  (exists a, with_location_df df location compute = Return a) <->
  filter_location df location <> [].
Proof.
  destruct (with_location_df_cases df location compute)
    as [[He Hr]|[Hne Hr]]; rewrite Hr; split.
  - intros [a [=]].
  - intros Hne. contradiction.
  - intros _. exact Hne.
  - intros _. now eexists.
Qed.

Lemma get_heatpump_plot_guard df location :
  get_heatpump_plot df location =
  with_location_df df location
    (fun location_df => generate_comparison_plot location_df location).
Proof. reflexivity. Qed.

(** X13. The catalogue and the location endpoints agree: a location is
    listed by the unfiltered [list_locations] (with some town) exactly when
    the summary, share, plot and report endpoints answer for it instead of
    raising "Location not found". *)
Theorem listed_locations_are_found :
  forall (pd : Pandas) (df : DataFrame),
  exists locs,
    list_locations df None = Some locs /\
    forall (location : string) (resolution : Resolution),
      let listed := exists town, In (location, town) locs in
      (listed <-> exists s, get_summary_metrics pd df location = Return s) /\
      (listed <->
       exists out, get_heatpump_share pd df location resolution = Return out) /\
      (listed <-> exists fig, get_heatpump_plot df location = Return fig) /\
      (listed <-> exists rows, download_report df location = Return rows).
Proof.
  intros pd df. eexists. split; [apply list_locations_unfiltered|].
  intros location resolution listed.
  assert (Hl : listed <-> filter_location df location <> []).
  { unfold listed. rewrite location_has_rows. split.
    - intros (town & Hin). apply (proj1 (catalogue_In _ _)) in Hin.
      unfold pairs_of in Hin. apply in_map_iff in Hin.
      destruct Hin as (r & [= Hloc _] & Hin). now exists r.
    - intros (r & Hin & Hloc). exists (Town r). apply (proj2 (catalogue_In _ _)).
      unfold pairs_of. apply in_map_iff. exists r.
      split; [now rewrite Hloc | exact Hin]. }
  rewrite get_summary_metrics_guard, get_heatpump_share_guard,
    get_heatpump_plot_guard, download_report_guard.
  rewrite !with_location_df_returns. tauto.
Qed.

Lemma generic_list_locations_unfiltered py df :
  Generic.list_locations py df None
  = Answer (sort_values_Location (drop_duplicates (pairs_of df))).
Proof. reflexivity. Qed.

(** X14. A town filter only narrows the catalogue, whatever the filter
    means to the regular-expression engine: every pair listed under a
    filter is listed without it, and the filtered list is not longer. *)
Theorem town_filter_narrows :
  forall (py : Regex) (df : DataFrame) (pat : string)
         (filtered : list (string * string)),
    Generic.list_locations py df (Some pat) = Answer filtered ->
    exists locs,
      Generic.list_locations py df None = Answer locs /\
      incl filtered locs /\
      (List.length filtered <= List.length locs)%nat.
Proof.
  intros py df pat filtered Hf.
  eexists. split; [apply generic_list_locations_unfiltered|].
  destruct (generic_list_locations_value _ _ _ Hf) as (keep & _ & ->).
  assert (Hincl : incl
            (sort_values_Location (drop_duplicates (pairs_of (filter keep df))))
            (sort_values_Location (drop_duplicates (pairs_of df)))).
  { intros p Hin. apply (proj1 (catalogue_In _ _)) in Hin.
    apply (proj2 (catalogue_In _ _)).
    unfold pairs_of in *. apply in_map_iff in Hin.
    destruct Hin as (r & <- & Hin). apply filter_In in Hin.
    apply in_map_iff. exists r. split; [reflexivity | tauto]. }
  split; [exact Hincl|].
  apply NoDup_incl_length; [apply catalogue_NoDup | exact Hincl].
Qed.

Lemma town_filter_narrows_witness :
  exists filtered locs,
    Generic.list_locations fragment_regex sample_df (Some "ber"%string)
    = Answer filtered /\
    Generic.list_locations fragment_regex sample_df None = Answer locs /\
    filtered = [("B", "Bergen")]%string /\
    incl filtered locs.
Proof.
  destruct (Generic.list_locations fragment_regex sample_df
              (Some "ber"%string))
    as [filtered|] eqn:E; [|vm_compute in E; discriminate].
  destruct (@town_filter_narrows fragment_regex sample_df "ber" filtered E)
    as (locs & Hl & Hi & _).
  exists filtered, locs. split; [reflexivity|]. split; [exact Hl|].
  split; [|exact Hi].
  vm_compute in E. injection E as <-. reflexivity.
Defined.

Lemma compiled_matches_itself (s : string) (atoms : list atom) :
  re_compile s = Some atoms -> match_here atoms s = true.
Proof.
  revert atoms. induction s as [|c s IH]; intros atoms; simpl.
  - now intros [= <-].
  - destruct (re_compile s) as [atoms'|]; [|discriminate].
    specialize (IH atoms' eq_refl).
    destruct (is_dot c) eqn:Ed.
    + intros [= <-]. simpl. rewrite IH.
      unfold is_dot in Ed. apply Ascii.eqb_eq in Ed. subst c. reflexivity.
    + destruct (is_special c); [discriminate|].
      intros [= <-]. simpl. now rewrite IH, Ascii.eqb_refl.
Qed.

Lemma match_here_search (atoms : list atom) (s : string) :
  match_here atoms s = true -> re_search atoms s = true.
Proof. destruct s; simpl; now intros ->. Qed.

(** X15. Filtering by a town's own name finds it: when the name of the
    town of a record uses no special character other than [.], the
    catalogue filtered by that name lists the record's (Location, Town)
    pair. *)
Theorem town_name_finds_its_locations :
  forall (df : DataFrame) (r : Row),
    In r df -> supported (Town r) = true ->
    exists locs,
      list_locations df (Some (Town r)) = Some locs /\
      In (Location r, Town r) locs.
Proof.
  intros df r Hin Hs. unfold list_locations.
  destruct (Town r) as [|c t] eqn:Et.
  - simpl truthy. eexists. split; [reflexivity|].
    apply (proj2 (catalogue_In _ _)). apply in_map_iff. exists r.
    split; [now rewrite Et | exact Hin].
  - simpl truthy. apply supported_compile in Hs. destruct Hs as [atoms Hc].
    rewrite Hc. eexists. split; [reflexivity|].
    apply (proj2 (catalogue_In _ _)). apply in_map_iff. exists r.
    split; [now rewrite Et|].
    apply filter_In. split; [exact Hin|]. rewrite Et.
    apply match_here_search. now apply compiled_matches_itself.
Qed.

Lemma town_name_finds_its_locations_witness :
  exists locs,
    list_locations sample_df (Some "Bergen"%string) = Some locs /\
    In ("B", "Bergen")%string locs.
Proof.
  apply (town_name_finds_its_locations sample_df
           (prepare_row
              (mkRawRow (mkRaw 2023 2 1 0 10 0 0 0) "B" "Bergen"
                        (of_Z 5) (of_Z 150)))).
  - vm_compute. do 4 right. left. reflexivity.
  - reflexivity.
Defined.

(** ** Filters without special characters *)

Lemma prefix_ci_spec (sub town : string) :
  prefix_ci sub town = true <->
  exists post,
    map_string lower town = (map_string lower sub ++ post)%string.
Proof.
  revert town. induction sub as [|a sub IH]; intros town.
  - simpl. split; [intros _; now eexists | reflexivity].
  - destruct town as [|b town]; simpl.
    + split; [discriminate | intros [post [=]]].
    + rewrite andb_true_iff, Ascii.eqb_eq, IH. split.
      * intros [-> [post ->]]. now exists post.
      * intros [post [= -> Hp]]. split; [reflexivity | now exists post].
Qed.

Lemma substring_ci_spec (sub town : string) :
  substring_ci sub town = true <->
  exists pre post,
    map_string lower town = (pre ++ map_string lower sub ++ post)%string.
Proof.
  induction town as [|b town IH].
  - simpl. rewrite orb_false_r, prefix_ci_spec. split.
    + intros [post Hp]. now exists EmptyString, post.
    + intros (pre & post & Hp). destruct pre; [|discriminate].
      now exists post.
  - cbn [substring_ci]. rewrite orb_true_iff, prefix_ci_spec, IH. split.
    + intros [[post Hp]|(pre & post & Hp)].
      * now exists EmptyString, post.
      * exists (String (lower b) pre), post. simpl. now rewrite Hp.
    + intros (pre & post & Hp). destruct pre as [|x pre].
      * left. now exists post.
      * right. simpl in Hp. injection Hp as _ Hp. now exists pre, post.
Qed.

Lemma filter_ext_in_rows (f g : Row -> bool) (df : DataFrame) :
  (forall r, f r = g r) -> filter f df = filter g df.
Proof. intros Hfg. apply filter_ext. exact Hfg. Qed.

Lemma list_locations_plain df pat :
  plain pat = true ->
  list_locations df (Some pat)
  = Some (sort_values_Location
            (drop_duplicates
               (pairs_of
                  (filter (fun r => substring_ci pat (Town r)) df)))).
Proof.
  intros Hp. unfold list_locations. destruct pat as [|c pat].
  - simpl truthy. cbv iota beta. unfold pairs_of.
    rewrite (filter_all (fun r : Row => substring_ci "" (Town r)) df);
      [reflexivity|].
    intros r _. now destruct (Town r).
  - simpl truthy. cbv iota beta. rewrite (plain_re_compile _ Hp).
    cbv iota beta.
    unfold pairs_of.
    rewrite (filter_ext_in_rows
               (fun r => re_search
                           (map Lit (list_ascii_of_string (String c pat)))
                           (Town r))
               (fun r => substring_ci (String c pat) (Town r))); [reflexivity|].
    intros r. apply re_search_literal.
Qed.



(** ** Independence of the order of the records *)

Lemma filter_perm (A : Type) (f : A -> bool) (l l' : list A) :
  Permutation l l' -> Permutation (filter f l) (filter f l').
Proof.
  induction 1 as [|x l l' _ IH|x y l|l l' l'' _ IH1 _ IH2]; simpl.
  - constructor.
  - destruct (f x); [now constructor | exact IH].
  - destruct (f x), (f y); try reflexivity. apply perm_swap.
  - now transitivity (filter f l').
Qed.

(** Numbers that compare equal are identical, up to the sign of zero. *)
Lemma feq_cases (x y : float64) :
  feq x y = true ->
  x = y \/ exists s s', x = S754_zero s /\ y = S754_zero s'.
Proof.
  rewrite feq_rank. intros (Hx & Hy & Hr).
  destruct x as [[]|[]| |[] mx ex], y as [[]|[]| |[] my ey];
    try discriminate; cbn [rank] in Hr;
    try (left; reflexivity); try (right; eexists; eexists; split; reflexivity);
    try (exfalso; injection Hr; lia); injection Hr as He Hm; left;
    f_equal; lia.
Qed.

Lemma same_number_refl (x : float64) : same_number x x.
Proof. now left. Qed.

Lemma round2_zero (s : bool) : round2 (S754_zero s) = S754_zero s.
Proof. destruct s; reflexivity. Qed.

Lemma round2_same_number (x y : float64) :
  same_number x y -> same_number (round2 x) (round2 y).
Proof.
  intros [->|H]; [now left|].
  destruct (feq_cases _ _ H) as [->|(s & s' & -> & ->)]; [now left|].
  right. rewrite !round2_zero. reflexivity.
Qed.

Lemma series_max_perm (l l' : list float64) :
  Permutation l l' -> same_number (series_max l) (series_max l').
Proof.
  intros Hp.
  assert (Hd : Permutation (dropna l) (dropna l')) by now apply filter_perm.
  destruct (dropna l) as [|x xs] eqn:E.
  - apply Permutation_nil in Hd. unfold series_max. rewrite E, Hd. now left.
  - assert (Hne : dropna l <> []) by (rewrite E; discriminate).
    assert (Hne' : dropna l' <> []).
    { intros He. rewrite He in Hd.
      apply Permutation_sym, Permutation_nil in Hd. discriminate. }
    rewrite <- E in Hd.
    destruct (@series_max_spec l Hne) as [Hin Hub].
    destruct (@series_max_spec l' Hne') as [Hin' Hub'].
    rewrite Forall_forall in Hub, Hub'.
    right. apply fle_antisym.
    + apply Hub'. exact (Permutation_in _ Hd Hin).
    + apply Hub. exact (Permutation_in _ (Permutation_sym Hd) Hin').
Qed.

Lemma series_min_perm (l l' : list float64) :
  Permutation l l' -> same_number (series_min l) (series_min l').
Proof.
  intros Hp.
  assert (Hd : Permutation (dropna l) (dropna l')) by now apply filter_perm.
  destruct (dropna l) as [|x xs] eqn:E.
  - apply Permutation_nil in Hd. unfold series_min. rewrite E, Hd. now left.
  - assert (Hne : dropna l <> []) by (rewrite E; discriminate).
    assert (Hne' : dropna l' <> []).
    { intros He. rewrite He in Hd.
      apply Permutation_sym, Permutation_nil in Hd. discriminate. }
    rewrite <- E in Hd.
    destruct (@series_min_spec l Hne) as [Hin Hlb].
    destruct (@series_min_spec l' Hne') as [Hin' Hlb'].
    rewrite Forall_forall in Hlb, Hlb'.
    right. apply fle_antisym.
    + apply Hlb. exact (Permutation_in _ (Permutation_sym Hd) Hin').
    + apply Hlb'. exact (Permutation_in _ Hd Hin).
Qed.

Lemma cancelling_rows_swapped :
  Permutation (load cancelling_rows) (load cancelling_rows_reordered).
Proof. unfold load. cbn [map cancelling_rows cancelling_rows_reordered].
  apply perm_skip. apply perm_swap. Qed.



Lemma sorted_unique {K : Type} `{Ord K} (l1 l2 : list K) :
  StronglySorted lt_key l1 -> StronglySorted lt_key l2 ->
  (forall x, In x l1 <-> In x l2) -> l1 = l2.
Proof.
  intros Hs1. revert l2.
  induction Hs1 as [|a l1 Hs1 IH Ha]; intros l2 Hs2 Hiff.
  - destruct l2 as [|b l2]; [reflexivity|].
    exfalso. apply (proj2 (Hiff b)). now left.
  - destruct Hs2 as [|b l2 Hs2 Hb].
    + exfalso. apply (proj1 (Hiff a)). now left.
    + rewrite Forall_forall in Ha, Hb.
      assert (Hab : a = b).
      { destruct (proj1 (Hiff a) (or_introl eq_refl)) as [Hba|Hin2];
          [now symmetry|].
        destruct (proj2 (Hiff b) (or_introl eq_refl)) as [Hab|Hin1];
          [exact Hab|].
        exfalso. exact (lt_key_irrefl
                          (lt_key_trans (Ha _ Hin1) (Hb _ Hin2))). }
      subst b. f_equal. apply IH; [exact Hs2|].
      intros x. split; intros Hx.
      * destruct (proj1 (Hiff x) (or_intror Hx)) as [Hax|Hin]; [|exact Hin].
        subst x. exfalso. exact (lt_key_irrefl (Ha _ Hx)).
      * destruct (proj2 (Hiff x) (or_intror Hx)) as [Hax|Hin]; [|exact Hin].
        subst x. exfalso. exact (lt_key_irrefl (Hb _ Hx)).
Qed.



(** ** Buckets as slots of the UTC clock *)

Lemma hour_slot (ts1 ts2 : Timestamp) :
  ts1 / NS_PER_DAY = ts2 / NS_PER_DAY -> dt_hour ts1 = dt_hour ts2 ->
  ts1 / NS_PER_HOUR = ts2 / NS_PER_HOUR.
Proof.
  unfold dt_hour. rewrite NS_PER_DAY_hours.
  rewrite <- !Z.div_div by (unfold NS_PER_HOUR, NS_PER_SECOND; lia).
  generalize (ts1 / NS_PER_HOUR) (ts2 / NS_PER_HOUR). intros h1 h2 Hd Hh.
  by_division.
Qed.

(** X19. Hourly and daily buckets are the hours and days of the UTC
    clock: two prepared rows have the same (date, hour) key exactly when
    their timestamps lie in the same UTC hour, and the same date key
    exactly when they lie in the same UTC day; rows of one day share their
    month key. *)
Theorem buckets_are_utc_slots :
  forall (a b : RawRow),
    let ra := prepare_row a in
    let rb := prepare_row b in
    (bucket_key hourly ra = bucket_key hourly rb <->
     timestamp ra / NS_PER_HOUR = timestamp rb / NS_PER_HOUR) /\
    (bucket_key daily ra = bucket_key daily rb <->
     timestamp ra / NS_PER_DAY = timestamp rb / NS_PER_DAY) /\
    (bucket_key daily ra = bucket_key daily rb ->
     bucket_key monthly ra = bucket_key monthly rb).
Proof.
  intros a b ra rb. subst ra rb.
  cbn [bucket_key prepare_row date hour month timestamp].
  set (ts1 := to_datetime_utc (raw_timestamp a)).
  set (ts2 := to_datetime_utc (raw_timestamp b)).
  clearbody ts1 ts2.
  assert (Hday : dt_date ts1 = dt_date ts2 <->
                 ts1 / NS_PER_DAY = ts2 / NS_PER_DAY).
  { unfold dt_date. split; [apply civil_from_days_inj | now intros ->]. }
  split; [|split].
  - split.
    + intros Heq.
      pose proof (f_equal fst Heq) as Hd. pose proof (f_equal snd Heq) as Hh.
      cbn [fst snd] in Hd, Hh.
      apply hour_slot; [exact (proj1 Hday Hd) | exact Hh].
    + intros Hh.
      assert (Hd : ts1 / NS_PER_DAY = ts2 / NS_PER_DAY).
      { rewrite NS_PER_DAY_hours.
        rewrite <- !Z.div_div by (unfold NS_PER_HOUR, NS_PER_SECOND; lia).
        now rewrite Hh. }
      f_equal; [exact (proj2 Hday Hd) | unfold dt_hour; now rewrite Hh].
  - exact Hday.
  - intros Hd. apply (proj1 Hday) in Hd.
    unfold to_period_M, tz_localize_None; cbn [wall_ns]. now rewrite Hd.
Qed.

(** ** One entry per location *)

Lemma sorted_map_fst (l : list (string * string)) :
  StronglySorted (fun p q => lt_key (fst p) (fst q)) l ->
  StronglySorted lt_key (map fst l).
Proof.
  induction 1 as [|p l _ IH Hall]; simpl; constructor; [exact IH|].
  apply Forall_forall. intros x Hx. apply in_map_iff in Hx.
  destruct Hx as (q & <- & Hq). rewrite Forall_forall in Hall.
  now apply Hall.
Qed.

Lemma strictly_sorted_when_injective (l : list (string * string)) :
  StronglySorted Location_le l -> NoDup l ->
  (forall p q, In p l -> In q l -> fst p = fst q -> p = q) ->
  StronglySorted (fun p q => lt_key (fst p) (fst q)) l.
Proof.
  induction 1 as [|p l Hs IH Hall]; intros Hnd Hinj; constructor.
  - apply IH; [now inversion Hnd|].
    intros x y Hx Hy. apply Hinj; now right.
  - apply Forall_forall. intros q Hq. rewrite Forall_forall in Hall.
    destruct (le_key_cases (Hall q Hq)) as [Hlt|Heq]; [exact Hlt|].
    assert (p = q) by (apply Hinj; simpl; auto). subst q.
    inversion Hnd; contradiction.
Qed.

(** X20. Where every location of the dataset has a single town, the
    catalogue lists each location once: the Location column of an answer
    is strictly ascending, with or without a town filter and whatever the
    filter means to the regular-expression engine. *)
Theorem one_town_per_location_one_entry :
  forall (py : Regex) (df : DataFrame) (Town_ : option string)
         (locs : list (string * string)),
    (forall r1 r2, In r1 df -> In r2 df ->
                   Location r1 = Location r2 -> Town r1 = Town r2) ->
    Generic.list_locations py df Town_ = Answer locs ->
    StronglySorted lt_key (map fst locs) /\ NoDup (map fst locs).
Proof.
  intros py df Town_ locs Hone Hl.
  destruct (generic_list_locations_value _ _ _ Hl) as (keep & _ & ->).
  set (pairs := pairs_of (filter keep df)).
  assert (Hs : StronglySorted lt_key
                 (map fst (sort_values_Location (drop_duplicates pairs)))).
  { apply sorted_map_fst. apply strictly_sorted_when_injective.
    - apply sort_values_Location_sorted.
    - apply catalogue_NoDup.
    - intros p q Hp Hq Hfst.
      apply (proj1 (catalogue_In _ _)) in Hp.
      apply (proj1 (catalogue_In _ _)) in Hq.
      unfold pairs, pairs_of in Hp, Hq. apply in_map_iff in Hp, Hq.
      destruct Hp as (r1 & <- & H1). destruct Hq as (r2 & <- & H2).
      apply filter_In in H1, H2. simpl in Hfst.
      rewrite Hfst, (Hone r1 r2) by tauto. reflexivity. }
  split; [exact Hs | now apply strictly_sorted_NoDup].
Qed.

Lemma one_town_per_location_one_entry_witness :
  (forall r1 r2, In r1 sample_df -> In r2 sample_df ->
                 Location r1 = Location r2 -> Town r1 = Town r2) /\
  exists locs,
    Generic.list_locations fragment_regex sample_df (Some "o"%string)
    = Answer locs /\
    locs = [("A", "Oslo")]%string /\
    NoDup (map fst locs).
Proof.
  assert (Hone : forall r1 r2, In r1 sample_df -> In r2 sample_df ->
                   Location r1 = Location r2 -> Town r1 = Town r2).
  { intros r1 r2 H1 H2.
    unfold sample_df, load, sample_rows in H1, H2. cbn [map] in H1, H2.
    destruct H1 as [<-|[<-|[<-|[<-|[<-|[]]]]]];
      destruct H2 as [<-|[<-|[<-|[<-|[<-|[]]]]]];
      intros Heq; (reflexivity || discriminate Heq). }
  split; [exact Hone|].
  eexists. split; [reflexivity|]. split; [reflexivity|].
  refine (proj2 (@one_town_per_location_one_entry
                   fragment_regex sample_df (Some "o"%string) _ Hone eq_refl)).
Defined.

(** ** One count for all endpoints *)

(** X21. The endpoints of a location agree on its size: the number of
    data points of the summary is the number of rows of the report and the
    number of points on each line of the plot, and it is at least one. *)
Theorem endpoints_agree_on_count :
  forall (pd : Pandas) (df : DataFrame) (location : string) (s : Summary)
         (rows : DataFrame) (fig : Figure),
    get_summary_metrics pd df location = Return s ->
    download_report df location = Return rows ->
    get_heatpump_plot df location = Return fig ->
    data_points s = List.length rows /\
    (1 <= data_points s)%nat /\
    Forall (fun line =>
              List.length (line_x line) = data_points s /\
              List.length (line_y line) = data_points s)
           (fig_lines fig).
Proof.
  intros pd df location s rows fig Hs Hr Hf.
  rewrite get_summary_metrics_guard in Hs.
  rewrite download_report_guard in Hr.
  rewrite get_heatpump_plot_guard in Hf.
  destruct (filter_location df location) as [|r0 l0] eqn:E.
  - rewrite (with_location_df_raise _ _ _ E) in Hs. discriminate.
  - assert (Hne : filter_location df location <> [])
      by (rewrite E; discriminate).
    rewrite (@with_location_df_return _ _ _ _ Hne) in Hs.
    rewrite (@with_location_df_return _ _ _ _ Hne) in Hr.
    rewrite (@with_location_df_return _ _ _ _ Hne) in Hf.
    injection Hs as <-. injection Hr as <-. injection Hf as <-.
    cbn [data_points generate_comparison_plot fig_lines].
    split; [reflexivity|]. split; [rewrite E; simpl; lia|].
    repeat constructor; cbn [line_x line_y]; apply length_map.
Qed.

Lemma endpoints_agree_on_count_witness :
  exists s rows,
    get_summary_metrics reference_pandas sample_df "A" = Return s /\
    download_report sample_df "A" = Return rows /\
    data_points s = List.length rows.
Proof.
  destruct (get_summary_metrics reference_pandas sample_df "A")
    as [s|e] eqn:Es; [|vm_compute in Es; discriminate].
  destruct (download_report sample_df "A") as [rows|e] eqn:Er;
    [|vm_compute in Er; discriminate].
  destruct (get_heatpump_plot sample_df "A") as [fig|e] eqn:Ef;
    [|vm_compute in Ef; discriminate].
  exists s, rows.
  destruct (@endpoints_agree_on_count
              reference_pandas sample_df "A" s rows fig Es Er Ef)
    as [Hc _].
  repeat split. exact Hc.
Defined.
